(** * IMDb scraper: the scraping, proxy and media-download pipeline

    A shallow embedding of the four services under
    [backend/app/services/scraping] (and of the part of
    [services/external/storage_service.py] the downloader calls), with the
    properties of the specification's sections 4, 7 and 8 stated over it.

    Conventions.
    - Python [int] is [Z]; Python [float] is binary64, Rocq's primitive
      floats: the scores, the averages and the confidence are computed
      with the roundings, the exceptions and the comparisons of Python.
      The random delays of the scraper, which the code only passes to
      [sleep], are rationals.
    - An [async def] is a coroutine: a computation that suspends at its
      [await]s, where the tasks of a batch interleave on the shared
      downloader and world. The same calls are also given as direct
      functions, which are the coroutines when nothing interrupts them.
    - [str] is [string]; [lower()] and [isalnum()] are the ASCII ones.
    - A Python object that is shared and mutated (a [ProxyInfo] in the pool)
      is identified by its position in [proxies]; the functions that return
      "a proxy" return that position.
    - Library calls whose result the code only passes on ([urlparse],
      [mimetypes], [hashlib], the HTTP client, the clock, the browser) are
      inputs of the model: fields of the URL, of the environment or of the
      world. *)

From Stdlib Require Import ZArith QArith Qminmax String Ascii List Lia Bool.
From Stdlib Require Floats Uint63.
From stdpp Require Import gmap strings list pretty.

Local Open Scope Z_scope.

(* ===================================================================== *)
(** * Python helpers *)
(* ===================================================================== *)

Module Py.

(** [str.lower()] on ASCII. *)
Definition lower_char (c : ascii) : ascii :=
  let n := nat_of_ascii c in
  if (Nat.leb 65 n && Nat.leb n 90)%bool then ascii_of_nat (n + 32) else c.

Fixpoint lower (s : string) : string :=
  match s with
  | EmptyString => EmptyString
  | String c s' => String (lower_char c) (lower s')
  end.

(** [s.startswith(p)]. *)
Fixpoint starts_with (p s : string) : bool :=
  match p, s with
  | EmptyString, _ => true
  | String _ _, EmptyString => false
  | String a p', String b s' => if Ascii.eqb a b then starts_with p' s' else false
  end.

(** [needle in hay] for strings. *)
Fixpoint str_in (needle hay : string) : bool :=
  match hay with
  | EmptyString => starts_with needle EmptyString
  | String _ hay' => starts_with needle hay || str_in needle hay'
  end.

(** [any(ind in s for ind in inds)]. *)
Definition any_in (inds : list string) (s : string) : bool :=
  existsb (fun ind => str_in ind s) inds.

(** [c.isalnum()] on ASCII. *)
Definition isalnum (c : ascii) : bool :=
  let n := nat_of_ascii c in
  ((Nat.leb 48 n && Nat.leb n 57) || (Nat.leb 65 n && Nat.leb n 90)
   || (Nat.leb 97 n && Nat.leb n 122))%bool.

Fixpoint str_filter (f : ascii -> bool) (s : string) : string :=
  match s with
  | EmptyString => EmptyString
  | String c s' => if f c then String c (str_filter f s') else str_filter f s'
  end.

Definition isdigit (c : ascii) : bool :=
  let n := nat_of_ascii c in (Nat.leb 48 n && Nat.leb n 57)%bool.

(** [all(f(c) for c in s)]. *)
Fixpoint all_chars (f : ascii -> bool) (s : string) : bool :=
  match s with
  | EmptyString => true
  | String c s' => f c && all_chars f s'
  end.

(** [str(n)] for an int. *)
Definition str_int (n : Z) : string := pretty n.

(** Zero-padded decimal of width at least [w], as [strftime] prints the
    fields of a date. *)
Fixpoint pad_left (w : nat) (s : string) : string :=
  match w with
  | O => s
  | S w' => if Nat.ltb (String.length s) w then pad_left w' (String "0" s) else s
  end.

Definition pad (w : nat) (n : nat) : string := pad_left w (pretty n).

(** Truthiness of an optional string: [None] and [""] are falsy. *)
Definition truthy (o : option string) : bool :=
  match o with
  | Some (String _ _) => true
  | _ => false
  end.

(** [max(a, b)] and [min(a, b)] on ints: Python returns the first
    argument unless the second is strictly better. *)
Definition max (a b : Z) : Z := if a <? b then b else a.
Definition min (a b : Z) : Z := if b <? a then b else a.

(** [a < b] on exact numbers: Python compares an int with a float by
    their exact values. *)
Definition Qltb (a b : Q) : bool := negb (Qle_bool b a).

(** The outcome of a call that may raise: the value, or [str(e)] of the
    exception. *)
Inductive result (A : Type) : Type :=
| Ok (a : A)
| Raise (msg : string).
Arguments Ok {A} a.
Arguments Raise {A} msg.

(** The double-quote character, for selectors. *)
Definition dq : string := String (ascii_of_nat 34) EmptyString.

(** ** Floats

    A Python [float] is a binary64 value, as Rocq's primitive floats are;
    [+], [-], [*], [/] and the comparisons on floats are the primitive
    ones. The conversions from ints are written with the reference
    implementation of the format ([SpecFloat]). *)

Definition float : Type := PrimFloat.float.

(** An int as an unrounded binary number. *)
Definition exact_int (z : Z) : SpecFloat.spec_float :=
  match z with
  | Z0 => SpecFloat.S754_zero false
  | Zpos m => SpecFloat.S754_finite false m 0
  | Zneg m => SpecFloat.S754_finite true m 0
  end.

(** The float nearest to [n / d] (ties to even), for [d <> 0]: the value
    of a decimal literal such as [0.3], written [lit 3 10]. *)
Definition lit (n d : Z) : float :=
  FloatOps.SF2Prim
    (SpecFloat.SFdiv FloatOps.prec FloatOps.emax (exact_int n) (exact_int d)).

(** [a / b] on ints: the float nearest to the quotient; a zero divisor and
    a quotient beyond the largest float raise. *)
Definition int_true_div (a b : Z) : result float :=
  if b =? 0 then Raise "division by zero"
  else
    let q := lit a b in
    if PrimFloat.is_infinity q
    then Raise "integer division result too large for a float"
    else Ok q.

(** The conversion of an int operand of a float operation: the nearest
    float, or an [OverflowError]. *)
Definition float_of_int (z : Z) : result float :=
  let x :=
    FloatOps.SF2Prim
      (SpecFloat.binary_normalize FloatOps.prec FloatOps.emax z 0 false) in
  if PrimFloat.is_infinity x then Raise "int too large to convert to float"
  else Ok x.

(** [x / n] for a float [x] and an int [n]. *)
Definition float_div_int (x : float) (n : Z) : result float :=
  match float_of_int n with
  | Raise e => Raise e
  | Ok y =>
      if PrimFloat.eqb y PrimFloat.zero then Raise "float division by zero"
      else Ok (PrimFloat.div x y)
  end.

(** [min(a, b)] on floats: the first argument unless the second is
    strictly smaller. *)
Definition fmin (a b : float) : float := if PrimFloat.ltb b a then b else a.

(** Truthiness of a float: the zeros are falsy. *)
Definition float_truthy (x : float) : bool := negb (PrimFloat.eqb x PrimFloat.zero).

(** [a == b] on a float field of two objects that are compared field by
    field: equal values, or the same NaN (a NaN is equal to no float, but
    the comparison of fields takes one object to be equal to itself). *)
Definition float_eq (a b : float) : bool :=
  (PrimFloat.eqb a b || (PrimFloat.is_nan a && PrimFloat.is_nan b))%bool.

(** The place of a float in the order of the floats: the class (from
    minus infinity, -2, to plus infinity, 2), then exponent and mantissa,
    compared from left to right; a NaN has no place. The two zeros share
    theirs. *)
Definition float_rank (x : float) : option (Z * Z * Z) :=
  match FloatOps.Prim2SF x with
  | SpecFloat.S754_nan => None
  | SpecFloat.S754_zero _ => Some (0, 0, 0)
  | SpecFloat.S754_infinity s => Some (if s then -2 else 2, 0, 0)
  | SpecFloat.S754_finite s m e =>
      Some (if s then (-1, - e, Zneg m) else (1, e, Zpos m))
  end.

Definition rank_lt (a b : Z * Z * Z) : Prop :=
  a.1.1 < b.1.1
  \/ (a.1.1 = b.1.1 /\ (a.1.2 < b.1.2 \/ (a.1.2 = b.1.2 /\ a.2 < b.2))).

End Py.

(** Wall-clock reading, as [datetime.now()] returns it. *)
Record DateTime := mkDateTime {
  year : nat; month : nat; day : nat; hour : nat; minute : nat; second : nat
}.

Global Instance DateTime_eq_dec : EqDecision DateTime.
Proof. solve_decision. Defined.

(** [dt.strftime("%Y%m%d_%H%M%S")]. *)
Definition strftime (dt : DateTime) : string :=
  Py.pad 4 (year dt) +:+ Py.pad 2 (month dt) +:+ Py.pad 2 (day dt) +:+ "_"
  +:+ Py.pad 2 (hour dt) +:+ Py.pad 2 (minute dt) +:+ Py.pad 2 (second dt).

(* ===================================================================== *)
(** * proxy_manager.py *)
(* ===================================================================== *)

Module ProxyManager.

(** The [ProxyInfo] dataclass. *)
Record ProxyInfo := mkProxyInfo {
  host : string;
  port : Z;
  username : option string;
  password : option string;
  protocol : string;
  last_used : option DateTime;
  success_count : Z;
  failure_count : Z;
  avg_response_time : Py.float;
  is_working : bool;
  country : option string;
  isp : option string
}.

Definition set_is_working (b : bool) (p : ProxyInfo) : ProxyInfo :=
  mkProxyInfo (host p) (port p) (username p) (password p) (protocol p)
    (last_used p) (success_count p) (failure_count p) (avg_response_time p)
    b (country p) (isp p).

(** The manager's state. [current_proxy_index] is only ever assigned [0]
    or a remainder modulo a positive length, so it is a natural number.
    A reference to a pooled proxy is its position in [proxies]. *)
Record t := mk {
  proxies : list ProxyInfo;
  current_proxy_index : nat;
  rotation_enabled : bool
}.

(** [ProxyManager()] *)
Definition init : t := mk [] 0 true.

(** [add_proxy]: a new [ProxyInfo] with the dataclass defaults is appended. *)
Definition add_proxy (h : string) (p : Z) (user pass : option string)
    (proto : string) (pm : t) : t :=
  mk (proxies pm ++ [mkProxyInfo h p user pass proto None 0 0 PrimFloat.zero true
                       None None])
     (current_proxy_index pm) (rotation_enabled pm).

(** [[p for p in self.proxies if p.is_working]], as references; the
    first argument is the position of the head of the list. *)
Fixpoint working_from (i : nat) (ps : list ProxyInfo) : list nat :=
  match ps with
  | [] => []
  | p :: ps' =>
      if is_working p then i :: working_from (S i) ps'
      else working_from (S i) ps'
  end.

Definition working_refs (ps : list ProxyInfo) : list nat := working_from 0 ps.

(** [get_current_proxy]: the returned reference and the state after the
    call (the call may reset the flags and the index). *)
Definition get_current_proxy (pm : t) : option nat * t :=
  match proxies pm with
  | [] => (None, pm)
  | _ :: _ =>
      let working := working_refs (proxies pm) in
      let '(ps, working) :=
        match working with
        | [] => (map (set_is_working true) (proxies pm),
                 seq 0 (length (proxies pm)))
        | _ :: _ => (proxies pm, working)
        end in
      let idx :=
        if Nat.leb (length working) (current_proxy_index pm) then O
        else current_proxy_index pm in
      (working !! idx, mk ps idx (rotation_enabled pm))
  end.

(** [rotate_proxy] *)
Definition rotate_proxy (pm : t) : option nat * t :=
  if (negb (rotation_enabled pm) || Nat.leb (length (proxies pm)) 1)%bool
  then get_current_proxy pm
  else
    let working := working_refs (proxies pm) in
    if Nat.leb (length working) 1 then get_current_proxy pm
    else
      get_current_proxy
        (mk (proxies pm)
            ((current_proxy_index pm + 1) mod length working)%nat
            (rotation_enabled pm)).

(** [n] successive calls of [rotate_proxy]: the proxies the calls
    returned, in call order, and the final state. *)
Fixpoint rotate_n (n : nat) (pm : t) : list (option nat) * t :=
  match n with
  | O => ([], pm)
  | S n' =>
      let '(r, pm1) := rotate_proxy pm in
      let '(rs, pm2) := rotate_n n' pm1 in
      (r :: rs, pm2)
  end.

(** [get_working_proxies]: [[proxy for proxy in self.proxies if
    proxy.is_working]], each proxy with its reference. *)
Fixpoint working_pairs_from (i : nat) (ps : list ProxyInfo)
    : list (nat * ProxyInfo) :=
  match ps with
  | [] => []
  | p :: ps' =>
      if is_working p then (i, p) :: working_pairs_from (S i) ps'
      else working_pairs_from (S i) ps'
  end.

Definition get_working_proxies (pm : t) : list (nat * ProxyInfo) :=
  working_pairs_from 0 (proxies pm).

(** [calculate_score], the local function of [get_best_proxy]: a float, or
    the exception of the division of the two ints. *)
Definition calculate_score (p : ProxyInfo) : Py.result Py.float :=
  let total_requests := success_count p + failure_count p in
  if total_requests =? 0 then Py.Ok (Py.lit 1 2)
  else
    match Py.int_true_div (success_count p) total_requests with
    | Py.Raise e => Py.Raise e
    | Py.Ok success_rate =>
        let time_penalty :=
          Py.fmin (PrimFloat.div (avg_response_time p) (Py.lit 10 1)) (Py.lit 1 1) in
        Py.Ok (PrimFloat.sub success_rate time_penalty)
    end.

(** [max(iterable, key=key)] after its first element: the key of each
    element is computed once, in order, and the running best is replaced
    only by an element whose key is strictly greater; an exception of
    [key] ends the call. *)
Fixpoint max_by {A : Type} (key : A -> Py.result Py.float) (best : A)
    (best_key : Py.float) (rest : list A) : Py.result A :=
  match rest with
  | [] => Py.Ok best
  | x :: rest' =>
      match key x with
      | Py.Raise e => Py.Raise e
      | Py.Ok k =>
          if PrimFloat.ltb best_key k then max_by key x k rest'
          else max_by key best best_key rest'
      end
  end.

(** [get_best_proxy] *)
Definition get_best_proxy (pm : t) : Py.result (option (nat * ProxyInfo)) :=
  match get_working_proxies pm with
  | [] => Py.Ok None
  | first :: rest =>
      match calculate_score (snd first) with
      | Py.Raise e => Py.Raise e
      | Py.Ok k =>
          match max_by (fun ip => calculate_score (snd ip)) first k rest with
          | Py.Raise e => Py.Raise e
          | Py.Ok best_proxy => Py.Ok (Some best_proxy)
          end
      end
  end.

(** [get_proxy_url] *)
Definition get_proxy_url (p : ProxyInfo) : string :=
  if (Py.truthy (username p) && Py.truthy (password p))%bool then
    protocol p +:+ "://" +:+ default "" (username p) +:+ ":"
    +:+ default "" (password p) +:+ "@" +:+ host p +:+ ":" +:+ Py.str_int (port p)
  else protocol p +:+ "://" +:+ host p +:+ ":" +:+ Py.str_int (port p).

(** [a == b] on the dataclass: field by field. *)
Definition proxy_eqb (a b : ProxyInfo) : bool :=
  (bool_decide (host a = host b) && bool_decide (port a = port b)
   && bool_decide (username a = username b)
   && bool_decide (password a = password b)
   && bool_decide (protocol a = protocol b)
   && bool_decide (last_used a = last_used b)
   && bool_decide (success_count a = success_count b)
   && bool_decide (failure_count a = failure_count b)
   && Py.float_eq (avg_response_time a) (avg_response_time b)
   && bool_decide (is_working a = is_working b)
   && bool_decide (country a = country b)
   && bool_decide (isp a = isp b))%bool.

Definition record_failure (p : ProxyInfo) : ProxyInfo :=
  mkProxyInfo (host p) (port p) (username p) (password p) (protocol p)
    (last_used p) (success_count p) (failure_count p + 1)
    (avg_response_time p) false (country p) (isp p).

(** [mark_proxy_failed(proxy, error)] for the pooled proxy [r]. *)
Definition mark_proxy_failed (r : nat) (pm : t) : t :=
  let pm1 := mk (alter record_failure r (proxies pm))
                (current_proxy_index pm) (rotation_enabled pm) in
  let '(cur, pm2) := get_current_proxy pm1 in
  match cur with
  | None => pm2
  | Some c =>
      match proxies pm2 !! r, proxies pm2 !! c with
      | Some p, Some pc => if proxy_eqb p pc then (rotate_proxy pm2).2 else pm2
      | _, _ => pm2
      end
  end.

(** The new average of [mark_proxy_success],
    [(avg_response_time * (success_count - 1) + response_time) / success_count]
    with [n] the count after the increment: the two ints are converted as
    they are met. *)
Definition rolling_average (avg : Py.float) (n : Z) (response_time : Py.float)
    : Py.result Py.float :=
  match Py.float_of_int (n - 1) with
  | Py.Raise e => Py.Raise e
  | Py.Ok k =>
      Py.float_div_int (PrimFloat.add (PrimFloat.mul avg k) response_time) n
  end.

(** The body of [mark_proxy_success] on the proxy: the three assignments,
    then the average, whose computation may raise. *)
Definition record_success (now : DateTime) (response_time : option Py.float)
    (p : ProxyInfo) : Py.result unit * ProxyInfo :=
  let n := success_count p + 1 in
  let counted avg :=
    mkProxyInfo (host p) (port p) (username p) (password p) (protocol p)
      (Some now) n (failure_count p) avg true (country p) (isp p) in
  match response_time with
  | Some rt =>
      if Py.float_truthy rt then
        match rolling_average (avg_response_time p) n rt with
        | Py.Ok avg => (Py.Ok tt, counted avg)
        | Py.Raise e => (Py.Raise e, counted (avg_response_time p))
        end
      else (Py.Ok tt, counted (avg_response_time p))
  | None => (Py.Ok tt, counted (avg_response_time p))
  end.

(** [mark_proxy_success(proxy, response_time)] for the pooled proxy [r];
    [now] is the reading of [datetime.utcnow()]. *)
Definition mark_proxy_success (r : nat) (response_time : option Py.float)
    (now : DateTime) (pm : t) : Py.result unit * t :=
  match proxies pm !! r with
  | None => (Py.Ok tt, pm)
  | Some p =>
      let '(res, p') := record_success now response_time p in
      (res, mk (<[r := p']> (proxies pm)) (current_proxy_index pm)
              (rotation_enabled pm))
  end.

(** Successive calls [mark_proxy_success(proxy, t)], one for each
    response time of [ts], whether or not a call raises. *)
Fixpoint mark_successes (r : nat) (ts : list Py.float) (now : DateTime) (pm : t) : t :=
  match ts with
  | [] => pm
  | rt :: ts' => mark_successes r ts' now (mark_proxy_success r (Some rt) now pm).2
  end.

(** The score as the specification writes it,
    [success_count/(success_count+failure_count) - min(avg_response_time/10, 1.0)],
    in the same arithmetic: the quotient raises when no request was
    recorded. *)
Definition spec_score (p : ProxyInfo) : Py.result Py.float :=
  match Py.int_true_div (success_count p) (success_count p + failure_count p) with
  | Py.Raise e => Py.Raise e
  | Py.Ok success_rate =>
      Py.Ok (PrimFloat.sub success_rate
               (Py.fmin (PrimFloat.div (avg_response_time p) (Py.lit 10 1))
                        (Py.lit 1 1)))
  end.

(** "[r] is the working proxy that maximizes [score], the first such in
    pool order": every working proxy has a score, none has a greater one
    than [r], and those before [r] have a smaller one. *)
Definition is_first_argmax (score : ProxyInfo -> Py.result Py.float) (pm : t)
    (r : option (nat * ProxyInfo)) : Prop :=
  match r with
  | None => get_working_proxies pm = []
  | Some (i, p) =>
      (i, p) ∈ get_working_proxies pm
      ∧ ∃ v, score p = Py.Ok v
             ∧ ∀ j q, (j, q) ∈ get_working_proxies pm →
                      ∃ w, score q = Py.Ok w
                           ∧ PrimFloat.ltb v w = false
                           ∧ ((j < i)%nat → PrimFloat.ltb w v = true)
  end.

(** Example pools. *)
Definition fresh (h : string) : ProxyInfo :=
  mkProxyInfo h 8080 None None "http" None 0 0 PrimFloat.zero true None None.

Definition tested (h : string) (ok ko : Z) (avg : Py.float) : ProxyInfo :=
  mkProxyInfo h 8080 None None "http" None ok ko avg true None None.

Definition pool3 : t :=
  add_proxy "10.0.0.3" 8080 None None "http"
    (add_proxy "10.0.0.2" 8080 None None "http"
       (add_proxy "10.0.0.1" 8080 None None "http" init)).

(** A proxy with one success in four requests, then an unused one. *)
Definition pool_tested_fresh : t :=
  mk [tested "10.0.0.1" 1 3 PrimFloat.zero; fresh "10.0.0.2"] 0 true.

(** Three successes in ten requests and no delay, then one success in one
    request and a delay of seven seconds: 0.3 against 1.0 - 0.7. *)
Definition pool_close_scores : t :=
  mk [tested "10.0.0.1" 3 7 PrimFloat.zero; tested "10.0.0.2" 1 0 (Py.lit 7 1)]
     0 true.

(** Three working proxies and a stale index, as [remove_failed_proxies]
    can leave it. *)
Definition pool_stale_index : t :=
  mk [fresh "10.0.0.1"; fresh "10.0.0.2"; fresh "10.0.0.3"] 4 true.

(** ** Pool maintenance *)

(** [reset_proxy_stats]: the body of the loop, then the loop. *)
Definition reset_stats (p : ProxyInfo) : ProxyInfo :=
  mkProxyInfo (host p) (port p) (username p) (password p) (protocol p)
    None 0 0 PrimFloat.zero true (country p) (isp p).

Definition reset_proxy_stats (pm : t) : t :=
  mk (map reset_stats (proxies pm)) (current_proxy_index pm) (rotation_enabled pm).

(** The test of [remove_failed_proxies]:
    [failure_count > 10 and failure_count > success_count * 3]. *)
Definition high_failure_rate (p : ProxyInfo) : bool :=
  ((10 <? failure_count p) && (success_count p * 3 <? failure_count p))%bool.

(** [l.remove(x)]: the first element equal to [x] is dropped; [None] is
    the [ValueError] of a list without such an element. *)
Fixpoint list_remove (x : ProxyInfo) (l : list ProxyInfo) : option (list ProxyInfo) :=
  match l with
  | [] => None
  | y :: l' => if proxy_eqb y x then Some l' else cons y <$> list_remove x l'
  end.

(** [for proxy in failed_proxies: self.proxies.remove(proxy)]: how the
    loop ended, and the list it left. *)
Fixpoint remove_each (failed_proxies ps : list ProxyInfo)
    : Py.result unit * list ProxyInfo :=
  match failed_proxies with
  | [] => (Py.Ok tt, ps)
  | proxy :: rest =>
      match list_remove proxy ps with
      | Some ps' => remove_each rest ps'
      | None => (Py.Raise "list.remove(x): x not in list", ps)
      end
  end.

(** [remove_failed_proxies]: the count it returns and the state after the
    call. *)
Definition remove_failed_proxies (pm : t) : Py.result Z * t :=
  let failed_proxies := List.filter high_failure_rate (proxies pm) in
  let '(r, ps) := remove_each failed_proxies (proxies pm) in
  (match r with
   | Py.Ok _ => Py.Ok (Z.of_nat (length failed_proxies))
   | Py.Raise e => Py.Raise e
   end,
   mk ps (current_proxy_index pm) (rotation_enabled pm)).

(** The dict of [health_check]. *)
Record HealthStatus := mkHealthStatus {
  status : string;
  total_proxies : Z;
  working_proxies : Z;
  health_rotation_enabled : bool;
  current_proxy : option string;
  issues : list string
}.

(** [health_check]: the dict and the state after the call (the call asks
    for the current proxy). *)
Definition health_check (pm : t) : HealthStatus * t :=
  let total := Z.of_nat (length (proxies pm)) in
  let working := Z.of_nat (length (get_working_proxies pm)) in
  match proxies pm with
  | [] =>
      (mkHealthStatus "warning" total working (rotation_enabled pm) None
         ["No proxies configured"], pm)
  | _ :: _ =>
      let '(status, issues) :=
        match get_working_proxies pm with
        | [] => ("critical", ["No working proxies available"])
        | _ :: _ =>
            if Py.Qltb (inject_Z working) (inject_Z total * (1 # 2))%Q
            then ("degraded", ["More than 50% of proxies are not working"])
            else ("healthy", [])
        end in
      let '(current, pm1) := get_current_proxy pm in
      (mkHealthStatus status total working (rotation_enabled pm)
         (match current with
          | Some r =>
              (fun p => host p +:+ ":" +:+ Py.str_int (port p)) <$> proxies pm1 !! r
          | None => None
          end)
         issues,
       pm1)
  end.

(** [sum(proxy.success_count for proxy in self.proxies)] and
    [sum(proxy.failure_count for proxy in self.proxies)], the two sums of
    [get_proxy_statistics]. *)
Definition total_success (ps : list ProxyInfo) : Z :=
  fold_right Z.add 0 (map success_count ps).

Definition total_failures (ps : list ProxyInfo) : Z :=
  fold_right Z.add 0 (map failure_count ps).

(** The number of elements of [l] equal ([==]) to [c]. *)
Definition copies (c : ProxyInfo) (l : list ProxyInfo) : nat :=
  length (List.filter (fun y => proxy_eqb y c) l).

(** The proxies [remove_failed_proxies] is meant to keep. *)
Definition keeps (p : ProxyInfo) : bool := negb (high_failure_rate p).

(** "[ps'] is [ps] up to the [is_working] flags." *)
Definition same_but_flags (ps ps' : list ProxyInfo) : Prop :=
  Forall2 (fun p p' => p' = set_is_working (is_working p') p) ps ps'.

(** A pool of two proxies that both failed. *)
Definition pool_all_failed : t :=
  mk [set_is_working false (fresh "10.0.0.1");
      set_is_working false (fresh "10.0.0.2")] 0 true.

End ProxyManager.

(* ===================================================================== *)
(** * anti_detection.py *)
(* ===================================================================== *)

Module AntiDetection.

(** What the browser page answers. Each awaited call may raise. *)
Record Page := mkPage {
  content : Py.result string;                      (* [await page.content()] *)
  query_selector_all : string -> Py.result nat;    (* number of elements found *)
  title : Py.result string;                        (* [await page.title()] *)
  url : string                                     (* [page.url] *)
}.

Definition bot_indicators : list string :=
  ["captcha"; "recaptcha"; "g-recaptcha"; "robot"; "access denied";
   "please verify"; "unusual traffic"; "automated queries"; "bot detected";
   "verification required"].

Definition captcha_selectors : list string :=
  ["[id*=" +:+ Py.dq +:+ "captcha" +:+ Py.dq +:+ "]";
   "[class*=" +:+ Py.dq +:+ "captcha" +:+ Py.dq +:+ "]";
   "[id*=" +:+ Py.dq +:+ "recaptcha" +:+ Py.dq +:+ "]";
   "[class*=" +:+ Py.dq +:+ "recaptcha" +:+ Py.dq +:+ "]";
   "iframe[src*=" +:+ Py.dq +:+ "recaptcha" +:+ Py.dq +:+ "]"].

(** The dict the function returns: the three keys of the normal path, or
    [detected] and [error] when a page call raised. *)
Inductive DetectionResult :=
| Scanned (detected : bool) (indicators : list string) (confidence : Py.float)
| ScanError (detected : bool) (error : string).

(** The loop over [captcha_selectors]. *)
Fixpoint probe_selectors (page : Page) (selectors : list string)
    (indicators : list string) : Py.result (list string) :=
  match selectors with
  | [] => Py.Ok indicators
  | selector :: rest =>
      match query_selector_all page selector with
      | Py.Raise e => Py.Raise e
      | Py.Ok elements =>
          probe_selectors page rest
            (if Nat.ltb 0 elements
             then indicators ++ ["captcha_element: " +:+ selector]
             else indicators)
      end
  end.

(** The float of a length (a length is below 2^63). *)
Definition float_of_nat (n : nat) : Py.float :=
  PrimFloat.of_uint63 (Uint63.of_Z (Z.of_nat n)).

(** [min(len(indicators) * 0.3, 1.0)], as Python evaluates it:
    [float(n) * 0.3] in binary64, then [min] with [1.0]. *)
Definition confidence_of_float (n : nat) : Py.float :=
  let x := PrimFloat.mul (float_of_nat n)
             (PrimFloat.div (float_of_nat 3) (float_of_nat 10)) in
  if PrimFloat.ltb (float_of_nat 1) x then float_of_nat 1 else x.

(** No scan collects more indicators than there are probes: ten keywords,
    five selectors, the title and the URL. *)
Definition max_indicators : nat := 17.

(** The binary64 confidences of all possible indicator counts are in
    [0, 1] and in nondecreasing order. *)
Definition float_confidences_ok : bool :=
  forallb (fun n =>
    forallb (fun m =>
      implb (Nat.leb n m)
        (PrimFloat.leb (float_of_nat 0) (confidence_of_float n)
         && PrimFloat.leb (confidence_of_float m) (float_of_nat 1)
         && PrimFloat.leb (confidence_of_float n) (confidence_of_float m)))
      (seq 0 (S max_indicators)))
    (seq 0 (S max_indicators)).

(** [check_for_bot_detection] *)
Definition check_for_bot_detection (page : Page) : DetectionResult :=
  match content page with
  | Py.Raise e => ScanError false e
  | Py.Ok page_content =>
      let page_content_lower := Py.lower page_content in
      let indicators :=
        List.filter (fun indicator => Py.str_in indicator page_content_lower)
          bot_indicators in
      match probe_selectors page captcha_selectors indicators with
      | Py.Raise e => ScanError false e
      | Py.Ok indicators =>
          match title page with
          | Py.Raise e => ScanError false e
          | Py.Ok title =>
              let indicators :=
                if Py.any_in bot_indicators (Py.lower title)
                then indicators ++ ["title: " +:+ title] else indicators in
              let indicators :=
                if Py.any_in ["captcha"; "verify"; "blocked"] (Py.lower (url page))
                then indicators ++ ["url: " +:+ url page] else indicators in
              match indicators with
              | [] => Scanned false indicators PrimFloat.zero
              | _ :: _ =>
                  Scanned true indicators (confidence_of_float (length indicators))
              end
          end
      end
  end.

(** Example pages. *)
Definition quiet_page : Page :=
  mkPage (Py.Ok "<html><body>The Matrix (1999)</body></html>")
         (fun _ => Py.Ok 0%nat) (Py.Ok "The Matrix") "https://www.imdb.com/title/tt0133093/".

Definition captcha_page : Page :=
  mkPage (Py.Ok "<html><body>Please verify you are not a Robot: CAPTCHA</body></html>")
         (fun _ => Py.Ok 1%nat) (Py.Ok "Access Denied") "https://www.imdb.com/blocked".

End AntiDetection.

(* ===================================================================== *)
(** * media_downloader.py (with the storage service it calls) *)
(* ===================================================================== *)

Module MediaDownloader.

Definition bytes : Type := list Byte.byte.

(** ** The environment *)

(** The three components of [urlparse(url)] the code reads. *)
Record ParsedUrl := mkParsedUrl { scheme : string; netloc : string; path : string }.

(** The library functions the downloader calls and only passes on. *)
Record Lib := mkLib {
  urlparse : string -> option ParsedUrl;       (* [None]: the call raises *)
  path_suffix : string -> string;              (* [Path(unquote(path)).suffix] *)
  guess_extension : string -> option string;   (* [mimetypes.guess_extension] *)
  guess_type : string -> option string;        (* [mimetypes.guess_type(name)[0]] *)
  splitext_ext : string -> string;             (* [os.path.splitext(s)[1]] *)
  md5_hex : bytes -> string                    (* [hashlib.md5(data).hexdigest()] *)
}.

(** The [Content-Length] header: absent (or empty), not an integer, or an
    integer. *)
Inductive ContentLength :=
| NoLength
| BadLength (text : string)
| Length (n : Z).

(** What the server does with one GET. *)
Inductive HttpReply :=
| GetRaises (msg : string)
| Response (status : Z) (content_type : option string)
           (content_length : ContentLength) (body : Py.result bytes).

(** What the downloader does to the outside, in order. *)
Inductive Event :=
| EvGet (url : string) (proxy_url : option string)   (* [session.get] *)
| EvRead                                             (* [response.read()] *)
| EvSleep (seconds : Z)                              (* [asyncio.sleep] *)
| EvWrite (file_path : string).                      (* the storage write *)

(** The outside world: the files under the data directory, the clock (its
    successive readings), the server (its successive replies) and the
    events so far. *)
Record World := mkWorld {
  files : gmap string bytes;
  writable : string -> bool;
  clock : nat -> DateTime;
  ticks : nat;
  network : nat -> HttpReply;
  requests : nat;
  trace : list Event
}.

Definition log (ev : Event) (w : World) : World :=
  mkWorld (files w) (writable w) (clock w) (ticks w) (network w) (requests w)
          (trace w ++ [ev]).

(** [datetime.now()] *)
Definition tick (w : World) : DateTime * World :=
  (clock w (ticks w),
   mkWorld (files w) (writable w) (clock w) (S (ticks w)) (network w)
           (requests w) (trace w)).

(** [session.get(url, proxy=proxy_url)] *)
Definition http_get (url : string) (proxy_url : option string) (w : World)
    : HttpReply * World :=
  (network w (requests w),
   mkWorld (files w) (writable w) (clock w) (ticks w) (network w)
           (S (requests w)) (trace w ++ [EvGet url proxy_url])).

Definition write_file (file_path : string) (data : bytes) (w : World) : World :=
  mkWorld (<[file_path := data]> (files w)) (writable w) (clock w) (ticks w)
          (network w) (requests w) (trace w ++ [EvWrite file_path]).

(** ** The downloader object *)

Record Stats := mkStats {
  total_downloads : Z;
  successful_downloads : Z;
  failed_downloads : Z;
  total_bytes : Z
}.

Record t := mk {
  proxy_manager : option ProxyManager.t;
  concurrent_downloads : Z;
  download_timeout : Z;
  max_file_size : Z;
  retry_attempts : Z;
  download_stats : Stats
}.

(** [MediaDownloader(proxy_manager)] *)
Definition init (pm : option ProxyManager.t) : t :=
  mk pm 5 30 (100 * 1024 * 1024) 3 (mkStats 0 0 0 0).

Definition set_proxy_manager (pm : option ProxyManager.t) (d : t) : t :=
  mk pm (concurrent_downloads d) (download_timeout d) (max_file_size d)
     (retry_attempts d) (download_stats d).

Definition set_stats (st : Stats) (d : t) : t :=
  mk (proxy_manager d) (concurrent_downloads d) (download_timeout d)
     (max_file_size d) (retry_attempts d) st.

(** [configure_download_settings]: the returned dict holds the four
    settings of the state after the call. *)
Definition configure_download_settings
    (concurrent_downloads' download_timeout' max_file_size' retry_attempts'
       : option Z) (d : t) : t :=
  mk (proxy_manager d)
     (match concurrent_downloads' with
      | Some v => Py.max 1 (Py.min v 20)
      | None => concurrent_downloads d
      end)
     (match download_timeout' with
      | Some v => Py.max 10 (Py.min v 300)
      | None => download_timeout d
      end)
     (match max_file_size' with
      | Some v => Py.max (1024 * 1024) (Py.min v (1024 * 1024 * 1024))
      | None => max_file_size d
      end)
     (match retry_attempts' with
      | Some v => Py.max 1 (Py.min v 10)
      | None => retry_attempts d
      end)
     (download_stats d).

(** The invariant of the four settings. *)
Definition settings_in_range (d : t) : Prop :=
  1 <= concurrent_downloads d <= 20
  ∧ 10 <= download_timeout d <= 300
  ∧ 1024 * 1024 <= max_file_size d <= 1024 * 1024 * 1024
  ∧ 1 <= retry_attempts d <= 10.

(** One call of [configure_download_settings]: its four arguments. *)
Definition ConfigureCall : Type := option Z * option Z * option Z * option Z.

Definition configure (d : t) (c : ConfigureCall) : t :=
  let '(cd, dt, mfs, ra) := c in configure_download_settings cd dt mfs ra d.

(** ** Downloading one file *)

(** The dict [download_media_file] returns ([download_time], a measure of
    elapsed time, is left out). *)
Record DownloadResult := mkDownloadResult {
  success : bool;
  url : string;
  movie_id : Z;
  file_type : string;
  local_path : option string;
  file_size : Z;
  error : option string;
  filename : option string;
  file_hash : option string;
  mime_type : option string
}.

Record FileInfo := mkFileInfo {
  extension : option string;
  content_type : option string;
  content_length : ContentLength
}.

(** The dict of [save_downloaded_media]. *)
Inductive SaveResult :=
| SaveOk (local_path filename : string) (file_size : Z) (file_hash : string)
         (mime_type : option string)
| SaveFailed (error : string).

(** [settings.DOWNLOADS_DIR / f"movie_{movie_id}"] *)
Definition movie_dir (movie_id : Z) : string :=
  "data/downloads/movie_" +:+ Py.str_int movie_id.

Definition nonempty (s : string) : bool :=
  match s with EmptyString => false | String _ _ => true end.

(** ** Coroutines *)

(** A call of an [async def] runs until it returns or reaches an [await]
    that suspends it; while it is suspended the event loop may run other
    tasks, which share the downloader and the world, and it resumes on the
    state they left. A task is a value or a suspended rest of a call. *)
#[warnings="-register-all"] Inductive Task (A : Type) : Type :=
| Done (a : A)
| Await (resume : t -> World -> Task A * t * World).

Arguments Done {A} a.
Arguments Await {A} resume.

(** A coroutine: from a state, its run up to the first suspension. *)
Definition Coro (A : Type) : Type := t -> World -> Task A * t * World.

Definition ret {A : Type} (a : A) : Coro A := fun d w => (Done a, d, w).

(** [f] once the task has its value. *)
Fixpoint bind_task {A B : Type} (ta : Task A) (f : A -> Coro B) : Coro B :=
  fun d w =>
    match ta with
    | Done a => f a d w
    | Await resume =>
        (Await (fun d' w' =>
                  let '(ta', d1, w1) := resume d' w' in bind_task ta' f d1 w1),
         d, w)
    end.

(** [b = await m; f(b)] *)
Definition bind {A B : Type} (m : Coro A) (f : A -> Coro B) : Coro B :=
  fun d w => let '(ta, d1, w1) := m d w in bind_task ta f d1 w1.

(** An [await] on something that is not ready. *)
Definition suspend : Coro unit :=
  fun d w => (Await (fun d' w' => (Done tt, d', w')), d, w).

(** A task that nothing interrupts: every suspension resumes at once. *)
Fixpoint run {A : Type} (ta : Task A) (d : t) (w : World) : A * t * World :=
  match ta with
  | Done a => (a, d, w)
  | Await resume => let '(ta', d1, w1) := resume d w in run ta' d1 w1
  end.

Definition run_coro {A : Type} (m : Coro A) (d : t) (w : World) : A * t * World :=
  let '(ta, d1, w1) := m d w in run ta d1 w1.






Definition same_total_downloads (d d' : t) : Prop :=
  total_downloads (download_stats d') = total_downloads (download_stats d).


(** [open(file_path, 'wb')]: the file exists and is empty. *)
Definition open_wb (file_path : string) (w : World) : World :=
  mkWorld (<[file_path := []]> (files w)) (writable w) (clock w) (ticks w)
          (network w) (requests w) (trace w).

(** The write of [data] through a handle opened at the start of the file:
    what the file held beyond the length of [data] stays. *)
Definition write_open (file_path : string) (data : bytes) (w : World) : World :=
  mkWorld (<[file_path :=
               data ++ drop (length data) (default [] (files w !! file_path))]>
             (files w))
          (writable w) (clock w) (ticks w) (network w) (requests w)
          (trace w ++ [EvWrite file_path]).

Section WithLib.
Variable lib : Lib.

(** [_is_valid_url] *)
Definition _is_valid_url (url : string) : bool :=
  match urlparse lib url with
  | None => false
  | Some parsed => nonempty (scheme parsed) && nonempty (netloc parsed)
  end.

(** [_get_file_extension] *)
Definition _get_file_extension (url : string) (content_type : option string)
    : Py.result string :=
  match urlparse lib url with
  | None => Py.Raise "urlparse failed"
  | Some parsed_url =>
      let path_ext := path_suffix lib (path parsed_url) in
      if nonempty path_ext then Py.Ok (Py.lower path_ext)
      else
        let guessed :=
          match content_type with
          | Some ct => if nonempty ct then guess_extension lib ct else None
          | None => None
          end in
        if Py.truthy guessed then Py.Ok (Py.lower (default EmptyString guessed))
        else
          let in_type (word : string) : bool :=
            match content_type with
            | Some ct => nonempty ct && Py.str_in word ct
            | None => false
            end in
          if Py.str_in "image" (Py.lower url) || in_type "image" then Py.Ok ".jpg"
          else if Py.str_in "video" (Py.lower url) || in_type "video" then Py.Ok ".mp4"
          else Py.Ok ".bin"
  end.

(** [_generate_filename]: the name carries the wall-clock time of the call. *)
Definition _generate_filename (url : string) (movie_id : Z)
    (file_type quality : string) (w : World) : Py.result string * World :=
  match _get_file_extension url None with
  | Py.Raise e => (Py.Raise e, w)
  | Py.Ok extension =>
      let '(now, w1) := tick w in
      let timestamp := strftime now in
      (Py.Ok ("movie_" +:+ Py.str_int movie_id +:+ "_" +:+ file_type +:+ "_"
              +:+ quality +:+ "_" +:+ timestamp +:+ extension), w1)
  end.

(** [_check_existing_file]: the keys of the dict it returns, or [None]. *)
Definition _check_existing_file (filename : string) (movie_id : Z) (w : World)
    : option (string * string * Z * string) :=
  let file_path := movie_dir movie_id +:+ "/" +:+ filename in
  match files w !! file_path with
  | Some data => Some (file_path, filename, Z.of_nat (length data), md5_hex lib data)
  | None => None
  end.

(** [StorageService._generate_safe_filename(original_filename)]: the safe
    characters of the name after the time of the call ([name + ext] of
    [os.path.splitext] is the safe name again). *)
Definition _generate_safe_filename (original_filename : string) (w : World)
    : string * World :=
  let safe_name :=
    Py.str_filter (fun c => Py.isalnum c || Py.str_in (String c EmptyString) "._-")
      original_filename in
  let '(now, w1) := tick w in
  (strftime now +:+ "_" +:+ safe_name, w1).

(** [StorageService.save_downloaded_media] *)
Definition save_downloaded_media (file_data : bytes) (original_url : string)
    (movie_id : Z) (file_type : string) (file_extension : option string)
    (w : World) : SaveResult * World :=
  let file_extension :=
    if Py.truthy file_extension then default EmptyString file_extension
    else
      let ext := splitext_ext lib original_url in
      if nonempty ext then ext else ".jpg" in
  let base_name := "movie_" +:+ Py.str_int movie_id +:+ "_" +:+ file_type in
  let '(filename, w1) := _generate_safe_filename (base_name +:+ file_extension) w in
  let file_path := movie_dir movie_id +:+ "/" +:+ filename in
  if writable w1 file_path then
    (SaveOk file_path filename (Z.of_nat (length file_data))
            (md5_hex lib file_data) (guess_type lib filename),
     write_file file_path file_data w1)
  else (SaveFailed ("cannot write " +:+ file_path), w1).

(** [str(e)] of the two exceptions the download raises itself. *)
Definition file_too_large (n : Z) : string :=
  "File too large: " +:+ Py.str_int n +:+ " bytes".

Definition client_response_error (status : Z) : string :=
  Py.str_int status +:+ ", message=''".

(** The size check on the declared length, before the body is read. *)
Definition check_content_length (cl : ContentLength) (limit : Z) : option string :=
  match cl with
  | NoLength => None
  | BadLength text => Some ("invalid literal for int() with base 10: " +:+ text)
  | Length n => if limit <? n then Some (file_too_large n) else None
  end.

(** The [try] block of one iteration of the retry loop. *)
Definition attempt_once (url : string) (d : t) (w : World)
    : Py.result (bytes * FileInfo) * t * World :=
  let '(proxy, pm1) :=
    match proxy_manager d with
    | None => (None, None)
    | Some pm =>
        let '(r, pm') := ProxyManager.get_current_proxy pm in (r, Some pm')
    end in
  let proxy_url :=
    match proxy, pm1 with
    | Some r, Some pm =>
        ProxyManager.get_proxy_url <$> (ProxyManager.proxies pm !! r)
    | _, _ => None
    end in
  let d1 := set_proxy_manager pm1 d in
  let '(reply, w1) := http_get url proxy_url w in
  match reply with
  | GetRaises msg => (Py.Raise msg, d1, w1)
  | Response status ct cl body =>
      if status =? 200 then
        match _get_file_extension url ct with
        | Py.Raise e => (Py.Raise e, d1, w1)
        | Py.Ok ext =>
            let file_info := mkFileInfo (Some ext) ct cl in
            match check_content_length cl (max_file_size d1) with
            | Some e => (Py.Raise e, d1, w1)
            | None =>
                let w2 := log EvRead w1 in
                match body with
                | Py.Raise e => (Py.Raise e, d1, w2)
                | Py.Ok file_data =>
                    match proxy_manager d1, proxy with
                    | Some pm, Some r =>
                        let '(now, w3) := tick w2 in
                        let '(marked, pm') :=
                          ProxyManager.mark_proxy_success r None now pm in
                        let d2 := set_proxy_manager (Some pm') d1 in
                        match marked with
                        | Py.Ok _ => (Py.Ok (file_data, file_info), d2, w3)
                        | Py.Raise e => (Py.Raise e, d2, w3)
                        end
                    | _, _ => (Py.Ok (file_data, file_info), d1, w2)
                    end
                end
            end
        end
      else (Py.Raise (client_response_error status), d1, w1)
  end.

(** The proxy bookkeeping of the [except] block. *)
Definition on_failure (e : string) (d : t) : t :=
  match proxy_manager d with
  | None => d
  | Some pm =>
      let '(proxy, pm1) := ProxyManager.get_current_proxy pm in
      match proxy with
      | None => set_proxy_manager (Some pm1) d
      | Some r =>
          let pm2 := ProxyManager.mark_proxy_failed r pm1 in
          set_proxy_manager (Some (ProxyManager.rotate_proxy pm2).2) d
      end
  end.

(** [for attempt in range(self.retry_attempts)]: [fuel] iterations are
    left and [attempt] is the loop variable. *)
Fixpoint retry_loop (url : string) (fuel : nat) (attempt : Z) (d : t) (w : World)
    : Py.result (option bytes * FileInfo) * t * World :=
  match fuel with
  | O => (Py.Ok (None, mkFileInfo None None NoLength), d, w)
  | S fuel' =>
      let '(r, d1, w1) := attempt_once url d w in
      match r with
      | Py.Ok (file_data, file_info) => (Py.Ok (Some file_data, file_info), d1, w1)
      | Py.Raise e =>
          let d2 := on_failure e d1 in
          if attempt =? retry_attempts d2 - 1 then (Py.Raise e, d2, w1)
          else retry_loop url fuel' (attempt + 1) d2 (log (EvSleep (2 ^ attempt)) w1)
      end
  end.

(** [_download_file_data] *)
Definition _download_file_data (url : string) (d : t) (w : World)
    : Py.result (option bytes * FileInfo) * t * World :=
  retry_loop url (Z.to_nat (retry_attempts d)) 0 d w.

(** The [try] block of [download_media_file]. *)
Definition download_body (url : string) (movie_id : Z) (file_type quality : string)
    (force_download : bool) (d : t) (w : World)
    : Py.result DownloadResult * t * World :=
  let download_result :=
    mkDownloadResult false url movie_id file_type None 0 None None None None in
  if negb (_is_valid_url url) then (Py.Raise ("Invalid URL: " +:+ url), d, w)
  else
    match _generate_filename url movie_id file_type quality w with
    | (Py.Raise e, w1) => (Py.Raise e, d, w1)
    | (Py.Ok filename, w1) =>
        match (if force_download then None
               else _check_existing_file filename movie_id w1) with
        | Some (path, name, size, hash) =>
            (Py.Ok (mkDownloadResult true url movie_id file_type (Some path) size
                      None (Some name) (Some hash) None), d, w1)
        | None =>
            let '(r, d2, w2) := _download_file_data url d w1 in
            match r with
            | Py.Raise e => (Py.Raise e, d2, w2)
            | Py.Ok (None, _) | Py.Ok (Some [], _) =>
                (Py.Raise "No data downloaded", d2, w2)
            | Py.Ok (Some file_data, file_info) =>
                let size := Z.of_nat (length file_data) in
                if max_file_size d2 <? size then (Py.Raise (file_too_large size), d2, w2)
                else
                  let '(save_result, w3) :=
                    save_downloaded_media file_data url movie_id file_type
                      (extension file_info) w2 in
                  match save_result with
                  | SaveOk path name fsize hash mime =>
                      let st := download_stats d2 in
                      (Py.Ok (mkDownloadResult true url movie_id file_type
                                (Some path) fsize None (Some name) (Some hash) mime),
                       set_stats
                         (mkStats (total_downloads st) (successful_downloads st + 1)
                                  (failed_downloads st) (total_bytes st + fsize)) d2,
                       w3)
                  | SaveFailed err =>
                      (Py.Raise ("Failed to save file: " +:+ err), d2, w3)
                  end
            end
        end
    end.

(** [download_media_file]: the [except] clause turns an exception into the
    [error] field, the [finally] clause counts the call. *)
Definition download_media_file (url : string) (movie_id : Z)
    (file_type quality : string) (force_download : bool) (d : t) (w : World)
    : DownloadResult * t * World :=
  let '(r, d1, w1) := download_body url movie_id file_type quality force_download d w in
  let st := download_stats d1 in
  match r with
  | Py.Ok download_result =>
      (download_result,
       set_stats (mkStats (total_downloads st + 1) (successful_downloads st)
                          (failed_downloads st) (total_bytes st)) d1,
       w1)
  | Py.Raise e =>
      (mkDownloadResult false url movie_id file_type None 0 (Some e) None None None,
       set_stats (mkStats (total_downloads st + 1) (successful_downloads st)
                          (failed_downloads st + 1) (total_bytes st)) d1,
       w1)
  end.

(** ** The same calls as coroutines

    The calls above run from start to end with nothing in between, as a
    task does when no other is scheduled. Below, each [await] of the
    source that waits for the network, for a timer or for a worker thread
    is a suspension: the request of [session.get], [response.read()], the
    exit of the two [async with] blocks, [asyncio.sleep], and the opening,
    the write and the closing of the file in [save_downloaded_media]. What
    [self] and the world hold is read when the statement runs, so after a
    suspension it is what the other tasks left. *)

(** The exit of the [async with] blocks, with a value or an exception. *)
Definition leave {A : Type} (r : Py.result A) : Coro (Py.result A) :=
  bind suspend (fun _ => ret r).

(** The [try] block of one iteration of the retry loop. *)
Definition attempt_once_co (url : string) : Coro (Py.result (bytes * FileInfo)) :=
  fun d w =>
    let '(proxy, pm1) :=
      match proxy_manager d with
      | None => (None, None)
      | Some pm =>
          let '(r, pm') := ProxyManager.get_current_proxy pm in (r, Some pm')
      end in
    let proxy_url :=
      match proxy, pm1 with
      | Some r, Some pm =>
          ProxyManager.get_proxy_url <$> (ProxyManager.proxies pm !! r)
      | _, _ => None
      end in
    let d1 := set_proxy_manager pm1 d in
    let '(reply, w1) := http_get url proxy_url w in
    bind suspend (fun _ =>
      match reply with
      | GetRaises msg => leave (Py.Raise msg)
      | Response status ct cl body =>
          if status =? 200 then
            match _get_file_extension url ct with
            | Py.Raise e => leave (Py.Raise e)
            | Py.Ok ext =>
                let file_info := mkFileInfo (Some ext) ct cl in
                fun d w =>
                  match check_content_length cl (max_file_size d) with
                  | Some e => leave (Py.Raise e) d w
                  | None =>
                      bind suspend (fun _ =>
                        match body with
                        | Py.Raise e => leave (Py.Raise e)
                        | Py.Ok file_data =>
                            fun d w =>
                              match proxy_manager d, proxy with
                              | Some pm, Some r =>
                                  let '(now, w3) := tick w in
                                  let '(marked, pm') :=
                                    ProxyManager.mark_proxy_success r None now pm in
                                  let d2 := set_proxy_manager (Some pm') d in
                                  match marked with
                                  | Py.Ok _ =>
                                      leave (Py.Ok (file_data, file_info)) d2 w3
                                  | Py.Raise e => leave (Py.Raise e) d2 w3
                                  end
                              | _, _ => leave (Py.Ok (file_data, file_info)) d w
                              end
                        end) d (log EvRead w)
                  end
            end
          else leave (Py.Raise (client_response_error status))
      end) d1 w1.

(** The retry loop; [asyncio.sleep] suspends. *)
Fixpoint retry_loop_co (url : string) (fuel : nat) (attempt : Z)
    : Coro (Py.result (option bytes * FileInfo)) :=
  match fuel with
  | O => ret (Py.Ok (None, mkFileInfo None None NoLength))
  | S fuel' =>
      bind (attempt_once_co url) (fun r =>
        match r with
        | Py.Ok (file_data, file_info) => ret (Py.Ok (Some file_data, file_info))
        | Py.Raise e =>
            fun d w =>
              let d2 := on_failure e d in
              if attempt =? retry_attempts d2 - 1 then (Done (Py.Raise e), d2, w)
              else
                bind suspend (fun _ => retry_loop_co url fuel' (attempt + 1))
                  d2 (log (EvSleep (2 ^ attempt)) w)
        end)
  end.

Definition _download_file_data_co (url : string)
    : Coro (Py.result (option bytes * FileInfo)) :=
  fun d w => retry_loop_co url (Z.to_nat (retry_attempts d)) 0 d w.

(** [StorageService.save_downloaded_media]: [aiofiles] opens, writes and
    closes the file in worker threads. *)
Definition save_downloaded_media_co (file_data : bytes) (original_url : string)
    (movie_id : Z) (file_type : string) (file_extension : option string)
    : Coro SaveResult :=
  fun d w =>
    let file_extension :=
      if Py.truthy file_extension then default EmptyString file_extension
      else
        let ext := splitext_ext lib original_url in
        if nonempty ext then ext else ".jpg" in
    let base_name := "movie_" +:+ Py.str_int movie_id +:+ "_" +:+ file_type in
    let '(filename, w1) := _generate_safe_filename (base_name +:+ file_extension) w in
    let file_path := movie_dir movie_id +:+ "/" +:+ filename in
    bind suspend (fun _ d w =>
      if writable w file_path then
        bind suspend (fun _ d w =>
          bind suspend (fun _ =>
            ret (SaveOk file_path filename (Z.of_nat (length file_data))
                   (md5_hex lib file_data) (guess_type lib filename)))
            d (write_open file_path file_data w))
          d (open_wb file_path w)
      else (Done (SaveFailed ("cannot write " +:+ file_path)), d, w)) d w1.

(** The [try] block of [download_media_file]. *)
Definition download_body_co (url : string) (movie_id : Z)
    (file_type quality : string) (force_download : bool)
    : Coro (Py.result DownloadResult) :=
  fun d w =>
    if negb (_is_valid_url url) then (Done (Py.Raise ("Invalid URL: " +:+ url)), d, w)
    else
      match _generate_filename url movie_id file_type quality w with
      | (Py.Raise e, w1) => (Done (Py.Raise e), d, w1)
      | (Py.Ok filename, w1) =>
          match (if force_download then None
                 else _check_existing_file filename movie_id w1) with
          | Some (path, name, size, hash) =>
              (Done (Py.Ok (mkDownloadResult true url movie_id file_type
                              (Some path) size None (Some name) (Some hash) None)),
               d, w1)
          | None =>
              bind (_download_file_data_co url) (fun r d2 w2 =>
                match r with
                | Py.Raise e => (Done (Py.Raise e), d2, w2)
                | Py.Ok (None, _) | Py.Ok (Some [], _) =>
                    (Done (Py.Raise "No data downloaded"), d2, w2)
                | Py.Ok (Some file_data, file_info) =>
                    let size := Z.of_nat (length file_data) in
                    if max_file_size d2 <? size
                    then (Done (Py.Raise (file_too_large size)), d2, w2)
                    else
                      bind (save_downloaded_media_co file_data url movie_id
                              file_type (extension file_info))
                        (fun save_result d3 w3 =>
                           match save_result with
                           | SaveOk path name fsize hash mime =>
                               let st := download_stats d3 in
                               (Done (Py.Ok (mkDownloadResult true url movie_id
                                               file_type (Some path) fsize None
                                               (Some name) (Some hash) mime)),
                                set_stats
                                  (mkStats (total_downloads st)
                                           (successful_downloads st + 1)
                                           (failed_downloads st)
                                           (total_bytes st + fsize)) d3,
                                w3)
                           | SaveFailed err =>
                               (Done (Py.Raise ("Failed to save file: " +:+ err)),
                                d3, w3)
                           end) d2 w2
                end) d w1
          end
      end.

(** The [except] and [finally] clauses of [download_media_file]. *)
Definition count_download (url : string) (movie_id : Z) (file_type : string)
    (r : Py.result DownloadResult) : Coro DownloadResult :=
  fun d w =>
    let st := download_stats d in
    match r with
    | Py.Ok download_result =>
        (Done download_result,
         set_stats (mkStats (total_downloads st + 1) (successful_downloads st)
                            (failed_downloads st) (total_bytes st)) d,
         w)
    | Py.Raise e =>
        (Done (mkDownloadResult false url movie_id file_type None 0 (Some e)
                 None None None),
         set_stats (mkStats (total_downloads st + 1) (successful_downloads st)
                            (failed_downloads st + 1) (total_bytes st)) d,
         w)
    end.

Definition download_media_file_co (url : string) (movie_id : Z)
    (file_type quality : string) (force_download : bool) : Coro DownloadResult :=
  bind (download_body_co url movie_id file_type quality force_download)
       (count_download url movie_id file_type).

(** Whether the attempt that receives [reply] fails, the size limit being
    [limit]: the request raises, the status is not 200, the extension
    cannot be determined, the declared length is rejected or the read of
    the body raises. *)
Definition attempt_fails (url : string) (limit : Z) (reply : HttpReply) : bool :=
  match reply with
  | GetRaises _ => true
  | Response status ct cl body =>
      if status =? 200 then
        match _get_file_extension url ct with
        | Py.Raise _ => true
        | Py.Ok _ =>
            match check_content_length cl limit, body with
            | None, Py.Ok _ => false
            | _, _ => true
            end
        end
      else true
  end.

End WithLib.

(** The number of attempts that fail one after the other, from the one
    numbered [from], among the next [fuel]. *)
Fixpoint failed_prefix (fails : nat -> bool) (from fuel : nat) : nat :=
  match fuel with
  | O => O
  | S fuel' => if fails from then S (failed_prefix fails (S from) fuel') else O
  end.

(** The events of one kind in a trace. *)
Definition sleeps_of (tr : list Event) : list Z :=
  omap (fun ev => match ev with EvSleep n => Some n | _ => None end) tr.

Definition gets_of (tr : list Event) : nat :=
  length (List.filter (fun ev => match ev with EvGet _ _ => true | _ => false end) tr).

Definition reads_of (tr : list Event) : nat :=
  length (List.filter (fun ev => match ev with EvRead => true | _ => false end) tr).

(** The events of a run of the retry loop that starts at iteration [k]: an
    attempt (one GET, no sleep), and, when the attempt is not the last, a
    sleep of 2^k seconds and the run that starts at iteration [k + 1]. *)
Inductive backoff_trace : Z -> list Event -> Prop :=
| backoff_last (k : Z) (a : list Event) :
    gets_of a = 1%nat -> sleeps_of a = [] -> backoff_trace k a
| backoff_retry (k : Z) (a rest : list Event) :
    gets_of a = 1%nat -> sleeps_of a = [] ->
    backoff_trace (k + 1) rest ->
    backoff_trace k (a ++ EvSleep (2 ^ k) :: rest).

(** The events a call added to the world's trace. *)
Definition new_events (w w' : World) : list Event :=
  drop (length (trace w)) (trace w').

(** ** Downloading a batch *)

(** A request dict: keyword arguments [download_media_file] accepts, or a
    dict it rejects with a [TypeError] (a missing or an unknown key). *)
Inductive Request :=
| Kwargs (url : string) (movie_id : Z) (file_type : string)
         (quality : option string) (force_download : option bool)
| BadKwargs (type_error : string).

(** How a task ended. *)
Inductive Outcome :=
| Returned (r : DownloadResult)
| Raised (e : string).

(** An element of the list [download_multiple_files] returns. *)
Inductive BatchItem :=
| ItemResult (r : DownloadResult)
| ItemFailure (success : bool) (error : string) (request : Request).

Inductive BatchRun :=
| Completed (download_results : list BatchItem) (d : t) (w : World)
| SemaphoreValueError            (* [asyncio.Semaphore(n)] with [n < 0] *)
| NeverCompletes.                (* some task never finishes *)

(** A task of the batch: waiting for the semaphore, suspended at an
    [await], or finished. *)
Inductive Slot :=
| Waiting
| Running (resume : t -> World -> Task Outcome * t * World)
| Finished (o : Outcome).

Definition settle (task : Task Outcome) : Slot :=
  match task with
  | Done o => Finished o
  | Await resume => Running resume
  end.

Definition is_running (slot : Slot) : bool :=
  match slot with Running _ => true | _ => false end.

(** The tasks that hold the semaphore. *)
Definition running (pool : list Slot) : Z :=
  Z.of_nat (length (List.filter is_running pool)).

(** The task at the head of the semaphore's queue: the tasks reach the
    semaphore in the order of the list and are woken in that order. *)
Fixpoint first_waiting (pool : list Slot) : option nat :=
  match pool with
  | [] => None
  | Waiting :: _ => Some 0%nat
  | _ :: rest => S <$> first_waiting rest
  end.

(** The result list of [gather], once every task has finished. *)
Fixpoint all_done (pool : list Slot) : option (list Outcome) :=
  match pool with
  | [] => Some []
  | Finished o :: rest =>
      match all_done rest with
      | Some os => Some (o :: os)
      | None => None
      end
  | _ :: _ => None
  end.

(** The calls of [download_media_file] a request makes. *)
Definition weight (request : Request) : Z :=
  match request with Kwargs _ _ _ _ _ => 1 | BadKwargs _ => 0 end.

(** The calls of [download_media_file] a batch makes. *)
Definition calls (download_requests : list Request) : Z :=
  foldr (fun request n => weight request + n) 0 download_requests.



(** The calls of [download_media_file] that have ended. *)
Fixpoint counted (download_requests : list Request) (pool : list Slot) : Z :=
  match download_requests, pool with
  | request :: requests, Finished _ :: rest => weight request + counted requests rest
  | _ :: requests, _ :: rest => counted requests rest
  | _, _ => 0
  end.

Section Batch.
Variable lib : Lib.

(** The direct call: a task that nothing interrupts. *)
Definition download_with_semaphore (request : Request) (d : t) (w : World)
    : Outcome * t * World :=
  match request with
  | Kwargs url movie_id file_type quality force_download =>
      let '(r, d1, w1) :=
        download_media_file lib url movie_id file_type
          (default "original" quality) (default false force_download) d w in
      (Returned r, d1, w1)
  | BadKwargs e => (Raised e, d, w)
  end.

(** [download_with_semaphore(request)], from the moment it holds the
    semaphore: the call of [self.download_media_file] with the request's
    keys as keyword arguments. *)
Definition download_with_semaphore_co (request : Request) : Coro Outcome :=
  match request with
  | Kwargs url movie_id file_type quality force_download =>
      bind (download_media_file_co lib url movie_id file_type
              (default "original" quality) (default false force_download))
           (fun r => ret (Returned r))
  | BadKwargs e => ret (Raised e)
  end.

(** The event loop runs task [i] for one step: a suspended task up to its
    next suspension or its end; a waiting one, if it is at the head of the
    queue and the semaphore has a free place, up to its first suspension.
    The result of a task that ends is kept in its slot. *)
Definition run_segment (download_requests : list Request) (limit : Z)
    (st : list Slot * t * World) (i : nat) : list Slot * t * World :=
  let '(pool, d, w) := st in
  match pool !! i, download_requests !! i with
  | Some (Running resume), _ =>
      let '(task, d1, w1) := resume d w in (<[i := settle task]> pool, d1, w1)
  | Some Waiting, Some request =>
      if bool_decide (first_waiting pool = Some i) && (running pool <? limit)
      then
        let '(task, d1, w1) := download_with_semaphore_co request d w in
        (<[i := settle task]> pool, d1, w1)
      else st
  | _, _ => st
  end.

(** The event loop runs task [i] to its end, nothing in between. *)
Definition run_to_end (download_requests : list Request) (limit : Z)
    (st : list Slot * t * World) (i : nat) : list Slot * t * World :=
  let '(pool, d, w) := st in
  match pool !! i, download_requests !! i with
  | Some (Running resume), _ =>
      let '(o, d1, w1) := run (Await resume) d w in (<[i := Finished o]> pool, d1, w1)
  | Some Waiting, Some request =>
      if bool_decide (first_waiting pool = Some i) && (running pool <? limit)
      then
        let '(o, d1, w1) := run_coro (download_with_semaphore_co request) d w in
        (<[i := Finished o]> pool, d1, w1)
      else st
  | _, _ => st
  end.

(** [asyncio.gather] over the tasks, with [return_exceptions=True]. The
    event loop runs the tasks step by step in the order [schedule], a list
    of task numbers: any run of the loop is one such list. The tasks a
    schedule leaves unfinished are then run to their end, in the order of
    the list. *)
Definition gather (download_requests : list Request) (limit : Z)
    (schedule : list nat) (d : t) (w : World) : list Slot * t * World :=
  foldl (run_to_end download_requests limit)
    (foldl (run_segment download_requests limit)
       (replicate (length download_requests) Waiting, d, w) schedule)
    (seq 0 (length download_requests)).



(** The loop over [enumerate(results)]. *)
Definition process_result (request : Request) (result : Outcome) : BatchItem :=
  match result with
  | Raised e => ItemFailure false e request
  | Returned r => ItemResult r
  end.

(** [download_multiple_files] *)
Definition download_multiple_files (download_requests : list Request)
    (max_concurrent : option Z) (schedule : list nat) (d : t) (w : World)
    : BatchRun :=
  let max_concurrent := default (concurrent_downloads d) max_concurrent in
  if max_concurrent <? 0 then SemaphoreValueError
  else
    let '(pool, d1, w1) := gather download_requests max_concurrent schedule d w in
    match all_done pool with
    | None => NeverCompletes
    | Some results =>
        Completed (zip_with process_result download_requests results) d1 w1
    end.


End Batch.

(** "[item] is the result of [request]": a download result carries the
    request's own url, movie and type; a failure carries the exception text
    and the request. *)
Definition answers (request : Request) (item : BatchItem) : Prop :=
  match request, item with
  | Kwargs u m ft _ _, ItemResult r => url r = u ∧ movie_id r = m ∧ file_type r = ft
  | BadKwargs e, ItemFailure ok err req => ok = false ∧ err = e ∧ req = request
  | _, _ => False
  end.

(** Every file of the world is one the storage service wrote: it lies in a
    movie directory and its name starts with the time of the write. *)
Definition stored_by_service (w : World) : Prop :=
  ∀ file_path, is_Some (files w !! file_path) →
    ∃ movie_id now safe_name,
      file_path = movie_dir movie_id +:+ "/" +:+ strftime now +:+ "_" +:+ safe_name.

(** ** Example environment *)

Definition example_url : string := "http://x/img.jpg".

Definition example_lib : Lib :=
  mkLib (fun _ => Some (mkParsedUrl "http" "x" "/img.jpg"))
        (fun _ => ".jpg") (fun _ => Some ".jpg") (fun _ => Some "image/jpeg")
        (fun _ => ".jpg") (fun _ => "0123456789abcdef0123456789abcdef").

(** New Year's Day 2024, noon; each reading of the clock is a second later. *)
Definition example_clock (n : nat) : DateTime := mkDateTime 2024 1 1 12 0 n.

(** An empty download directory and a server that always answers 200 with
    the given declared length and body. *)
Definition server_world (declared : ContentLength) (body : bytes) : World :=
  mkWorld ∅ (fun _ => true) example_clock 0
          (fun _ => Response 200 (Some "image/jpeg") declared (Py.Ok body)) 0 [].

Definition small_world : World :=
  server_world (Length 50) (replicate 50 Byte.x00).

(** The server declares one byte more than the default [max_file_size]. *)
Definition oversized_world : World :=
  server_world (Length 104857601) (replicate 50 Byte.x00).

(** The same server, with a clock that stands still. *)
Definition frozen_world : World :=
  mkWorld ∅ (fun _ => true) (fun _ => mkDateTime 2024 1 1 12 0 0) 0
          (fun _ => Response 200 (Some "image/jpeg") (Length 50)
                      (Py.Ok (replicate 50 Byte.x00))) 0 [].

Definition example_requests : list Request :=
  [Kwargs example_url 7 "poster" (Some "high") None;
   BadKwargs "download_media_file() got an unexpected keyword argument 'size'";
   Kwargs example_url 8 "still" None None].

End MediaDownloader.

(* ===================================================================== *)
(** * imdb_scraper.py *)
(* ===================================================================== *)

Module IMDbScraper.

Record Stats := mkStats {
  pages_visited : Z;
  movies_scraped : Z;
  people_scraped : Z;
  media_extracted : Z;
  errors : Z
}.

(** The scraper: its proxy manager, its counters and whether a browser
    page is open. *)
Record t := mk {
  proxy_manager : option ProxyManager.t;
  scraping_stats : Stats;
  browser_open : bool
}.

(** [IMDbScraper(proxy_manager)] after [initialize_browser()]. *)
Definition init (pm : option ProxyManager.t) : t :=
  mk pm (mkStats 0 0 0 0 0) true.

(** What the browser does during one attempt: the outcome of [page.goto]
    (on an open page; [self.page] is [None] after a relaunch that failed
    before the page was created), of the evasion sequence, the page then
    loaded, the outcome of [initialize_browser()] should it be called (and,
    when it raises, whether it had created the page), and the random delay
    drawn before the next attempt. *)
Record Attempt := mkAttempt {
  goto : Py.result unit;
  evade_detection_sequence : Py.result unit;
  page : AntiDetection.Page;
  initialize_browser : Py.result unit;
  page_created : bool;
  delay : Q
}.

(** [detection_result["detected"]] for the page of an attempt. *)
Definition detected_on (a : Attempt) : bool :=
  match AntiDetection.check_for_bot_detection (page a) with
  | AntiDetection.Scanned detected _ _ => detected
  | AntiDetection.ScanError detected _ => detected
  end.

Inductive Event :=
| EvGoto (url : string)
| EvRotate
| EvClose
| EvInit
| EvSleep (seconds : Q).

(** How the [try] block of one iteration ends. *)
Inductive Step :=
| Return (b : bool)
| Continue
| Except (e : string).

Definition count_page (s : t) : t :=
  let st := scraping_stats s in
  mk (proxy_manager s)
     (mkStats (pages_visited st + 1) (movies_scraped st) (people_scraped st)
              (media_extracted st) (errors st))
     (browser_open s).

Definition count_error (s : t) : t :=
  let st := scraping_stats s in
  mk (proxy_manager s)
     (mkStats (pages_visited st) (movies_scraped st) (people_scraped st)
              (media_extracted st) (errors st + 1))
     (browser_open s).

(** The [try] block of [navigate_to_page]. *)
Definition try_attempt (url : string) (retries attempt : Z) (a : Attempt)
    (s : t) (tr : list Event) : Step * t * list Event :=
  let '(went, tr) :=
    if browser_open s then (goto a, tr ++ [EvGoto url])
    else (Py.Raise "'NoneType' object has no attribute 'goto'", tr) in
  match went with
  | Py.Raise e => (Except e, s, tr)
  | Py.Ok _ =>
      match evade_detection_sequence a with
      | Py.Raise e => (Except e, s, tr)
      | Py.Ok _ =>
          if detected_on a then
            match proxy_manager s with
            | Some pm =>
                let s1 := mk (Some (ProxyManager.rotate_proxy pm).2)
                             (scraping_stats s) false in
                let tr := tr ++ [EvRotate; EvClose; EvInit] in
                match initialize_browser a with
                | Py.Raise e =>
                    (Except e,
                     mk (proxy_manager s1) (scraping_stats s1) (page_created a), tr)
                | Py.Ok _ =>
                    let s2 := mk (proxy_manager s1) (scraping_stats s1) true in
                    if attempt =? retries - 1 then (Return false, s2, tr)
                    else (Continue, s2, tr ++ [EvSleep (delay a)])
                end
            | None =>
                if attempt =? retries - 1 then (Return false, s, tr)
                else (Continue, s, tr ++ [EvSleep (delay a)])
            end
          else (Return true, count_page s, tr)
      end
  end.

(** [for attempt in range(retries)], with the [except] block. *)
Fixpoint navigate_loop (browser : nat -> Attempt) (url : string) (retries : Z)
    (fuel : nat) (attempt : Z) (s : t) (tr : list Event)
    : bool * t * list Event :=
  match fuel with
  | O => (false, s, tr)
  | S fuel' =>
      let a := browser (Z.to_nat attempt) in
      let '(step, s1, tr1) := try_attempt url retries attempt a s tr in
      match step with
      | Return b => (b, s1, tr1)
      | Continue => navigate_loop browser url retries fuel' (attempt + 1) s1 tr1
      | Except e =>
          if attempt =? retries - 1 then (false, count_error s1, tr1)
          else navigate_loop browser url retries fuel' (attempt + 1) s1
                 (tr1 ++ [EvSleep (delay a)])
      end
  end.

(** [navigate_to_page(url, retries)] *)
Definition navigate_to_page (browser : nat -> Attempt) (url : string)
    (retries : Z) (s : t) : bool * t * list Event :=
  navigate_loop browser url retries (Z.to_nat retries) 0 s [].

Definition example_title_url : string := "https://www.imdb.com/title/tt0133093/".

(** Example browsers: every attempt meets the CAPTCHA page; every attempt
    fails to load. *)
Definition always_blocked (n : nat) : Attempt :=
  mkAttempt (Py.Ok tt) (Py.Ok tt) AntiDetection.captcha_page (Py.Ok tt) true 20%Q.

Definition always_failing (n : nat) : Attempt :=
  mkAttempt (Py.Raise "Timeout 30000ms exceeded") (Py.Ok tt)
            AntiDetection.quiet_page (Py.Ok tt) true 10%Q.

End IMDbScraper.

(* ===================================================================== *)
(** * Strings and decimal numerals *)
(* ===================================================================== *)

Section StringFacts.

Lemma append_nil (b : string) : EmptyString +:+ b = b.
Proof. reflexivity. Qed.

Lemma append_cons (x : ascii) (a b : string) :
  String x a +:+ b = String x (a +:+ b).
Proof. reflexivity. Qed.

Lemma append_assoc (a b c : string) : (a +:+ b) +:+ c = a +:+ b +:+ c.
Proof.
  induction a as [|x a IH]; [done|]. rewrite !append_cons. by f_equal.
Qed.

Lemma all_chars_app (f : ascii → bool) (a b : string) :
  Py.all_chars f (a +:+ b) = Py.all_chars f a && Py.all_chars f b.
Proof.
  induction a as [|x a IH]; [done|].
  rewrite append_cons. simpl. by rewrite IH, andb_assoc.
Qed.

Lemma all_chars_weaken (f g : ascii → bool) (s : string) :
  (∀ c, f c = true → g c = true) →
  Py.all_chars f s = true → Py.all_chars g s = true.
Proof.
  intros Hfg. induction s as [|x s IH]; simpl; [done|].
  intros [Hx Hs]%andb_true_iff. rewrite (Hfg _ Hx). by apply IH.
Qed.

Lemma pretty_N_char_digit (x : N) : Py.isdigit (pretty_N_char x) = true.
Proof. unfold pretty_N_char. by repeat case_match. Qed.

Lemma pretty_N_go_digits (x : N) (s : string) :
  Py.all_chars Py.isdigit s = true →
  Py.all_chars Py.isdigit (pretty_N_go x s) = true.
Proof.
  revert s. induction (N.lt_wf_0 x) as [x _ IH]; intros s Hs.
  destruct (decide (x = 0%N)) as [-> | Hx]; [by rewrite pretty_N_go_0|].
  rewrite pretty_N_go_step by lia. apply IH.
  - apply N.div_lt; lia.
  - simpl. by rewrite pretty_N_char_digit, Hs.
Qed.

Lemma pretty_N_go_nonempty (x : N) (s : string) :
  s ≠ EmptyString → pretty_N_go x s ≠ EmptyString.
Proof.
  revert s. induction (N.lt_wf_0 x) as [x _ IH]; intros s Hs.
  destruct (decide (x = 0%N)) as [-> | Hx]; [by rewrite pretty_N_go_0|].
  rewrite pretty_N_go_step by lia. apply IH; [apply N.div_lt; lia | done].
Qed.

Lemma pretty_N_digits (x : N) :
  Py.all_chars Py.isdigit (pretty x) = true ∧ pretty x ≠ EmptyString.
Proof.
  unfold pretty, pretty_N. destruct (decide (x = 0%N)) as [-> | Hx]; [done|].
  split; [by apply pretty_N_go_digits|].
  rewrite pretty_N_go_step by lia. by apply pretty_N_go_nonempty.
Qed.

Lemma pretty_nat_digits (n : nat) :
  Py.all_chars Py.isdigit (pretty n) = true ∧ pretty n ≠ EmptyString.
Proof. apply pretty_N_digits. Qed.

(** The decimal numeral of an int has no [/] in it. *)
Lemma str_int_no_slash (z : Z) :
  Py.all_chars (λ c, negb (Ascii.eqb c "/")) (Py.str_int z) = true.
Proof.
  assert (Hd : ∀ x : N, Py.all_chars (λ c, negb (Ascii.eqb c "/")) (pretty x) = true).
  { intros x. eapply all_chars_weaken; [|apply pretty_N_digits].
    intros c Hc. destruct (Ascii.eqb_spec c "/") as [-> | _]; done. }
  unfold Py.str_int, pretty, pretty_Z. destruct z as [|p|p]; [done | apply Hd |].
  rewrite append_cons, append_nil. simpl. apply Hd.
Qed.

(** Two strings cut at their first [/] agree part by part. *)
Lemma split_at_slash (s1 s2 r1 r2 : string) :
  Py.all_chars (λ c, negb (Ascii.eqb c "/")) s1 = true →
  Py.all_chars (λ c, negb (Ascii.eqb c "/")) s2 = true →
  s1 +:+ String "/" r1 = s2 +:+ String "/" r2 →
  s1 = s2 ∧ r1 = r2.
Proof.
  revert s2. induction s1 as [|c1 s1 IH]; intros [|c2 s2];
    rewrite ?append_cons, ?append_nil; simpl.
  - by intros _ _ [= ->].
  - intros _ [Hc _]%andb_true_iff [= <- _]. done.
  - intros [Hc _]%andb_true_iff _ [= -> _]. done.
  - intros [_ H1]%andb_true_iff [_ H2]%andb_true_iff [= -> Heq].
    destruct (IH s2 H1 H2 Heq) as [-> ->]. done.
Qed.

Lemma pad_left_head (w : nat) (s : string) :
  (∃ c rest, s = String c rest ∧ Py.isdigit c = true) →
  ∃ c rest, Py.pad_left w s = String c rest ∧ Py.isdigit c = true.
Proof.
  revert s. induction w as [|w IH]; intros s Hs; simpl; [done|].
  destruct (Nat.ltb _ _); [|done]. apply IH. by eexists _, _.
Qed.

(** A timestamp starts with a digit. *)
Lemma strftime_head (now : DateTime) :
  ∃ c rest, strftime now = String c rest ∧ Py.isdigit c = true.
Proof.
  unfold strftime.
  destruct (pad_left_head 4 (pretty (year now))) as (c & rest & Hpad & Hc).
  { destruct (pretty_nat_digits (year now)) as [Hd Hne].
    destruct (pretty (year now)) as [|c rest]; [done|].
    simpl in Hd. apply andb_true_iff in Hd as [Hc _]. by eexists _, _. }
  unfold Py.pad. rewrite Hpad, append_cons. by eexists _, _.
Qed.

End StringFacts.

(* ===================================================================== *)
(** * The order of the floats *)
(* ===================================================================== *)

Section FloatFacts.

(** The comparison of two floats is the comparison of their ranks. *)
Lemma float_rank_compare (a b : Py.float) :
  SpecFloat.SFcompare (FloatOps.Prim2SF a) (FloatOps.Prim2SF b)
  = match Py.float_rank a, Py.float_rank b with
    | Some (c1, e1, m1), Some (c2, e2, m2) =>
        Some match c1 ?= c2 with
             | Eq => match e1 ?= e2 with
                     | Eq => m1 ?= m2
                     | c => c
                     end
             | c => c
             end
    | _, _ => None
    end.
Proof.
  unfold Py.float_rank.
  destruct (FloatOps.Prim2SF a) as [s1|s1| |s1 m1 e1],
           (FloatOps.Prim2SF b) as [s2|s2| |s2 m2 e2];
    try destruct s1; try destruct s2; try reflexivity; cbn.
  rewrite Z.compare_opp, (Z.compare_antisym e1 e2).
  by destruct (e1 ?= e2).
Qed.

Lemma float_ltb_rank (a b : Py.float) :
  PrimFloat.ltb a b = true ↔
  ∃ ra rb, Py.float_rank a = Some ra ∧ Py.float_rank b = Some rb
           ∧ Py.rank_lt ra rb.
Proof.
  rewrite FloatAxioms.ltb_spec. unfold SpecFloat.SFltb.
  rewrite float_rank_compare. unfold Py.rank_lt.
  destruct (Py.float_rank a) as [[[c1 e1] m1]|], (Py.float_rank b) as [[[c2 e2] m2]|];
    try (split; [done | by intros (? & ? & ? & ? & _)]).
  split.
  - intros H. exists (c1, e1, m1), (c2, e2, m2). split; [done|]. split; [done|].
    simpl. destruct (Z.compare_spec c1 c2); [|lia|done].
    destruct (Z.compare_spec e1 e2); [|lia|done].
    destruct (Z.compare_spec m1 m2); [done|lia|done].
  - intros (ra & rb & [= <-] & [= <-] & H). simpl in H.
    destruct (Z.compare_spec c1 c2); [|done|lia].
    destruct (Z.compare_spec e1 e2); [|done|lia].
    destruct (Z.compare_spec m1 m2); [lia|done|lia].
Qed.

Lemma float_is_nan_rank (a : Py.float) :
  PrimFloat.is_nan a = true ↔ Py.float_rank a = None.
Proof.
  unfold PrimFloat.is_nan. rewrite negb_true_iff, FloatAxioms.eqb_spec.
  unfold SpecFloat.SFeqb. rewrite float_rank_compare.
  destruct (Py.float_rank a) as [[[c e] m]|]; [|done].
  by rewrite !Z.compare_refl.
Qed.

Lemma float_eqb_rank (a b : Py.float) :
  PrimFloat.eqb a b = true ↔
  ∃ r, Py.float_rank a = Some r ∧ Py.float_rank b = Some r.
Proof.
  rewrite FloatAxioms.eqb_spec. unfold SpecFloat.SFeqb.
  rewrite float_rank_compare.
  destruct (Py.float_rank a) as [[[c1 e1] m1]|], (Py.float_rank b) as [[[c2 e2] m2]|];
    try (split; [done | by intros (? & ? & ?)]).
  split.
  - intros H. destruct (Z.compare_spec c1 c2); [|done..].
    destruct (Z.compare_spec e1 e2); [|done..].
    destruct (Z.compare_spec m1 m2); [|done..]. subst. by eexists.
  - intros (r & [= <-] & [= -> -> ->]). by rewrite !Z.compare_refl.
Qed.

(** [==] on a float field is an equivalence: it compares the ranks. *)
Lemma float_eq_rank (a b : Py.float) :
  Py.float_eq a b = true ↔ Py.float_rank a = Py.float_rank b.
Proof.
  unfold Py.float_eq. rewrite orb_true_iff, andb_true_iff, float_eqb_rank,
    !float_is_nan_rank.
  split.
  - intros [(r & -> & ->) | [-> ->]]; done.
  - intros E. destruct (Py.float_rank a) as [r|]; [left; by exists r | by right].
Qed.

(** Among floats that are not NaN, [<] is a strict total order up to the
    equality of ranks. *)
Lemma float_ltb_trans (a b c : Py.float) :
  PrimFloat.ltb a b = true → PrimFloat.ltb b c = true → PrimFloat.ltb a c = true.
Proof.
  rewrite !float_ltb_rank.
  intros (ra & rb & Ha & Hb & H1) (rb' & rc & Hb' & Hc & H2).
  rewrite Hb in Hb'. injection Hb' as <-.
  exists ra, rc. split; [done|]. split; [done|].
  unfold Py.rank_lt in *. lia.
Qed.

Lemma float_ltb_irrefl (a : Py.float) : PrimFloat.ltb a a = false.
Proof.
  destruct (PrimFloat.ltb a a) eqn:E; [|done].
  apply float_ltb_rank in E as (ra & rb & Ha & Hb & H).
  rewrite Ha in Hb. injection Hb as <-. unfold Py.rank_lt in H. lia.
Qed.

(** [b <= y < x] gives [b < x], for floats that are not NaN. *)
Lemma float_le_lt_trans (b y x : Py.float) :
  PrimFloat.is_nan y = false →
  PrimFloat.ltb b y = false → PrimFloat.ltb b x = true → PrimFloat.ltb y x = true.
Proof.
  intros Hy Hby Hbx.
  apply float_ltb_rank in Hbx as (rb & rx & Hb & Hx & H).
  destruct (Py.float_rank y) as [ry|] eqn:Ery.
  2: { apply float_is_nan_rank in Ery. congruence. }
  apply float_ltb_rank. exists ry, rx. split; [done|]. split; [done|].
  destruct (decide (Py.rank_lt rb ry)) as [Hlt|Hnlt].
  - assert (PrimFloat.ltb b y = true) by (apply float_ltb_rank; by exists rb, ry).
    congruence.
  - unfold Py.rank_lt in *. lia.
Qed.

End FloatFacts.

(* ===================================================================== *)
(** * Properties of proxy_manager.py *)
(* ===================================================================== *)

Section ProxyManagerFacts.
Import ProxyManager.

Lemma working_from_spec (ps : list ProxyInfo) (i r : nat) :
  r ∈ working_from i ps ↔
  ∃ p, (i ≤ r)%nat ∧ ps !! (r - i)%nat = Some p ∧ is_working p = true.
Proof.
  revert i. induction ps as [|q ps IH]; intros i; simpl.
  - split; [by intros ?%elem_of_nil | by intros (p & _ & ? & _)].
  - assert (Hrec : r ∈ working_from (S i) ps ↔
              ∃ p, (i < r)%nat ∧ (q :: ps) !! (r - i)%nat = Some p
                   ∧ is_working p = true).
    { rewrite IH. split; intros (p & Hle & Hl & Hw); exists p.
      - split; [lia|]. split; [|done].
        replace (r - i)%nat with (S (r - S i)) by lia. done.
      - split; [lia|]. split; [|done].
        replace (r - i)%nat with (S (r - S i)) in Hl by lia. done. }
    destruct (is_working q) eqn:Hq.
    + rewrite elem_of_cons, Hrec. split.
      * intros [-> | (p & ? & ? & ?)].
        -- exists q. rewrite Nat.sub_diag. done.
        -- exists p. split; [lia | done].
      * intros (p & Hle & Hl & Hw).
        destruct (decide (r = i)) as [-> | Hne]; [by left | right].
        exists p. split; [lia | done].
    + rewrite Hrec. split.
      * intros (p & ? & ? & ?). exists p. split; [lia | done].
      * intros (p & Hle & Hl & Hw).
        destruct (decide (r = i)) as [-> | Hne].
        -- rewrite Nat.sub_diag in Hl. simpl in Hl. congruence.
        -- exists p. split; [lia | done].
Qed.

Lemma working_from_all (ps : list ProxyInfo) (i : nat) :
  Forall (λ p, is_working p = true) ps → working_from i ps = seq i (length ps).
Proof.
  intros H. revert i. induction H as [|p ps Hp _ IH]; intros i; simpl; [done|].
  by rewrite Hp, IH.
Qed.

Lemma working_from_none (ps : list ProxyInfo) (i : nat) :
  working_from i ps = [] ↔ Forall (λ p, is_working p = false) ps.
Proof.
  revert i. induction ps as [|p ps IH]; intros i; simpl.
  - split; [by constructor | done].
  - destruct (is_working p) eqn:Hp.
    + split; [done | intros H; inversion H; congruence].
    + rewrite IH. split; [by constructor | by inversion 1].
Qed.

Lemma map_set_working_all (ps : list ProxyInfo) :
  Forall (λ p, is_working p = true) (map (set_is_working true) ps).
Proof. apply Forall_forall. intros p (q & -> & _)%list_elem_of_fmap. done. Qed.

(** What [get_current_proxy] computes on a non-empty pool, case by case. *)
Lemma get_current_proxy_cons (pm : t) :
  proxies pm ≠ [] →
  ∃ ps working idx,
    get_current_proxy pm = (working !! idx, mk ps idx (rotation_enabled pm))
    ∧ working = working_refs ps
    ∧ working ≠ []
    ∧ (idx < length working)%nat
    ∧ idx = (if Nat.leb (length working) (current_proxy_index pm) then O
             else current_proxy_index pm)
    ∧ ((working_refs (proxies pm) ≠ [] ∧ ps = proxies pm)
       ∨ (working_refs (proxies pm) = []
          ∧ ps = map (set_is_working true) (proxies pm))).
Proof.
  intros Hne. unfold get_current_proxy.
  destruct (proxies pm) as [|p0 ps0] eqn:Hps; [done|].
  destruct (working_refs (p0 :: ps0)) as [|w ws] eqn:Hw.
  - eexists _, _, _. split; [reflexivity|].
    assert (Hall : working_refs (map (set_is_working true) (p0 :: ps0))
                   = seq 0 (length (p0 :: ps0))).
    { unfold working_refs. rewrite working_from_all by apply map_set_working_all.
      by rewrite length_map. }
    split; [by rewrite Hall|]. split; [done|].
    split; [|split; [done | by right]].
    simpl length. destruct (Nat.leb _ _) eqn:E; [lia|].
    apply Nat.leb_gt in E. simpl in E. lia.
  - eexists _, _, _. split; [reflexivity|].
    split; [by rewrite Hw|]. split; [done|].
    split; [|split; [done | by left]].
    destruct (Nat.leb _ _) eqn:E; [simpl; lia|].
    by apply Nat.leb_gt in E.
Qed.

(** C2. [get_current_proxy] returns [None] exactly when the pool is empty;
    on a non-empty pool it returns a proxy of the pool, which is then
    marked working; and when every proxy was marked not working, the call
    has set [is_working] on all of them. *)
Theorem get_current_proxy_liveness (pm : t) :
  ((get_current_proxy pm).1 = None ↔ proxies pm = [])
  ∧ (proxies pm ≠ [] →
     ∃ r p, (get_current_proxy pm).1 = Some r
            ∧ proxies (get_current_proxy pm).2 !! r = Some p
            ∧ is_working p = true)
  ∧ (proxies pm ≠ [] → Forall (λ p, is_working p = false) (proxies pm) →
     proxies (get_current_proxy pm).2 = map (set_is_working true) (proxies pm)
     ∧ Forall (λ p, is_working p = true) (proxies (get_current_proxy pm).2)).
Proof.
  assert (Hsome : proxies pm ≠ [] →
     ∃ r p, (get_current_proxy pm).1 = Some r
            ∧ proxies (get_current_proxy pm).2 !! r = Some p
            ∧ is_working p = true).
  { intros Hne.
    destruct (get_current_proxy_cons pm Hne)
      as (ps & working & idx & -> & Hw & _ & Hlt & _ & _).
    simpl. destruct (lookup_lt_is_Some_2 working idx Hlt) as [r Hr].
    assert (Hin : r ∈ working_from 0 ps).
    { rewrite Hw in Hr. by eapply list_elem_of_lookup_2. }
    apply working_from_spec in Hin as (p & _ & Hp & Hwp).
    rewrite Nat.sub_0_r in Hp. by exists r, p. }
  split; [|split; [done|]].
  - split.
    + intros HN. destruct (proxies pm) as [|p0 ps0] eqn:E; [done|].
      destruct Hsome as (r & p & Hr & _); [done | congruence].
    + intros E. unfold get_current_proxy. by rewrite E.
  - intros Hne Hall.
    destruct (get_current_proxy_cons pm Hne)
      as (ps & working & idx & -> & _ & _ & _ & _ & [[Hw _] | [_ ->]]).
    + exfalso. apply Hw. by apply working_from_none.
    + simpl. split; [done | apply map_set_working_all].
Qed.

(** On a pool whose proxies all work, the call returns the proxy at the
    (normalised) index and changes nothing but the index. *)
Lemma get_current_proxy_all_working (ps : list ProxyInfo) (idx : nat) (rot : bool) :
  ps ≠ [] → Forall (λ p, is_working p = true) ps →
  get_current_proxy (mk ps idx rot)
  = (let i := if Nat.leb (length ps) idx then O else idx in (Some i, mk ps i rot)).
Proof.
  intros Hne Hall. unfold get_current_proxy. simpl proxies.
  destruct ps as [|p0 ps0] eqn:Hps; [done|]. rewrite <- Hps in *.
  unfold working_refs. rewrite (working_from_all ps 0 Hall).
  assert (Hlen : (0 < length ps)%nat) by (rewrite Hps; simpl; lia).
  destruct (seq 0 (length ps)) as [|x xs] eqn:Hseq.
  { apply (f_equal length) in Hseq. rewrite length_seq in Hseq. simpl in Hseq. lia. }
  rewrite <- Hseq. simpl. rewrite length_seq.
  f_equal. apply lookup_seq_lt. destruct (Nat.leb _ _) eqn:E; [lia|].
  by apply Nat.leb_gt in E.
Qed.

Lemma rotate_proxy_all_working (ps : list ProxyInfo) (idx : nat) :
  (idx < length ps)%nat → Forall (λ p, is_working p = true) ps →
  rotate_proxy (mk ps idx true)
  = (Some ((idx + 1) mod length ps)%nat, mk ps ((idx + 1) mod length ps)%nat true).
Proof.
  intros Hidx Hall. unfold rotate_proxy. simpl.
  assert (Hne : ps ≠ []) by (intros ->; simpl in Hidx; lia).
  assert (Hm : ((idx + 1) mod length ps < length ps)%nat)
    by (apply Nat.mod_upper_bound; lia).
  destruct (Nat.leb_spec (length ps) 1) as [Hone|Hmany].
  - rewrite get_current_proxy_all_working by done. cbv zeta.
    destruct (Nat.leb_spec (length ps) idx); [lia|].
    replace (length ps) with 1%nat in * by lia.
    replace idx with 0%nat by lia. done.
  - unfold working_refs. rewrite (working_from_all ps 0 Hall), length_seq.
    destruct (Nat.leb_spec (length ps) 1); [lia|].
    rewrite get_current_proxy_all_working by done. cbv zeta.
    destruct (Nat.leb_spec (length ps) ((idx + 1) mod length ps)); [lia | done].
Qed.

(** The proxies [k] calls return on a pool whose proxies all work: the
    index runs through the pool, one step a call, and wraps around. *)
Lemma rotate_n_all_working (ps : list ProxyInfo) (k idx : nat) :
  (idx < length ps)%nat → Forall (λ p, is_working p = true) ps →
  rotate_n k (mk ps idx true)
  = (map (λ j, Some ((idx + j) mod length ps)%nat) (seq 1 k),
     mk ps ((idx + k) mod length ps)%nat true).
Proof.
  intros Hidx Hall. revert idx Hidx. induction k as [|k IH]; intros idx Hidx.
  { simpl. by rewrite Nat.add_0_r, Nat.mod_small. }
  cbn [rotate_n]. rewrite rotate_proxy_all_working by done.
  rewrite IH by (apply Nat.mod_upper_bound; lia).
  f_equal.
  - cbn [seq map]. f_equal. rewrite <- (seq_shift k 1), map_map.
    apply map_ext. intros j. f_equal.
    rewrite Nat.Div0.add_mod_idemp_l. f_equal. lia.
  - f_equal. rewrite Nat.Div0.add_mod_idemp_l. f_equal. lia.
Qed.

(** A second [get_current_proxy] returns the same proxy and changes
    nothing: the first call has normalised the flags and the index. *)
Lemma get_current_proxy_idem (pm : t) :
  get_current_proxy (get_current_proxy pm).2 = get_current_proxy pm.
Proof.
  destruct (proxies pm) as [|p0 ps0] eqn:Hps.
  { unfold get_current_proxy at 2 3. rewrite Hps. simpl.
    unfold get_current_proxy. by rewrite Hps. }
  destruct (get_current_proxy_cons pm) as
    (ps & working & idx & Heq & Hw & Hwne & Hlt & _ & _); [by rewrite Hps|].
  rewrite Heq. simpl. unfold get_current_proxy. simpl.
  destruct ps as [|q qs] eqn:Hq.
  { subst working. done. }
  rewrite <- Hq in *. rewrite <- Hw.
  destruct working as [|w ws] eqn:Hwk; [done|]. rewrite <- Hwk in *.
  destruct (Nat.leb (length working) idx) eqn:E; [apply Nat.leb_le in E; lia|].
  done.
Qed.

(** With at least two working proxies and rotation enabled, a call
    advances the index by one modulo the number of working proxies. *)
Lemma rotate_proxy_advances (pm : t) :
  rotation_enabled pm = true →
  (2 ≤ length (working_refs (proxies pm)))%nat →
  current_proxy_index (rotate_proxy pm).2
  = ((current_proxy_index pm + 1) mod length (working_refs (proxies pm)))%nat
  ∧ (rotate_proxy pm).1
    = working_refs (proxies pm) !! current_proxy_index (rotate_proxy pm).2.
Proof.
  intros Hrot Hw. unfold rotate_proxy. rewrite Hrot. simpl.
  assert (Hlen : (2 ≤ length (proxies pm))%nat).
  { destruct (working_refs (proxies pm)) as [|a [|b l]] eqn:E; simpl in Hw; try lia.
    assert (Ha : a ∈ working_from 0 (proxies pm)) by (unfold working_refs in E; rewrite E; set_solver).
    assert (Hb : b ∈ working_from 0 (proxies pm)) by (unfold working_refs in E; rewrite E; set_solver).
    apply working_from_spec in Ha as (pa & _ & Hpa & _).
    apply working_from_spec in Hb as (pb & _ & Hpb & _).
    rewrite Nat.sub_0_r in *.
    apply lookup_lt_Some in Hpa, Hpb.
    destruct (decide (a = b)) as [-> | Hab]; [|lia].
    assert (Hnd : NoDup (working_from 0 (proxies pm))).
    { clear. generalize 0%nat. induction (proxies pm) as [|p ps IH]; intros i; simpl.
      - constructor.
      - destruct (is_working p); [|apply IH].
        constructor; [|apply IH].
        intros (q & Hle & _)%working_from_spec. lia. }
    unfold working_refs in E. rewrite E in Hnd.
    apply NoDup_cons in Hnd as [Hnin _]. set_solver. }
  destruct (Nat.leb (length (proxies pm)) 1) eqn:E1; [apply Nat.leb_le in E1; lia|].
  destruct (Nat.leb (length (working_refs (proxies pm))) 1) eqn:E2;
    [apply Nat.leb_le in E2; lia|].
  set (i := ((current_proxy_index pm + 1) mod length (working_refs (proxies pm)))%nat).
  assert (Hi : (i < length (working_refs (proxies pm)))%nat)
    by (apply Nat.mod_upper_bound; lia).
  unfold get_current_proxy. simpl.
  destruct (proxies pm) as [|p0 ps0] eqn:Hps; [simpl in Hlen; lia|].
  destruct (working_refs (p0 :: ps0)) as [|w ws] eqn:Hwk; [simpl in Hw; lia|].
  rewrite <- Hwk in *.
  destruct (Nat.leb _ i) eqn:E3; [apply Nat.leb_le in E3; lia|]. done.
Qed.

(** When rotation is disabled or the pool has at most one proxy, a call
    leaves the current proxy as it was. *)
Lemma rotate_proxy_noop (pm : t) :
  rotation_enabled pm = false ∨ (length (proxies pm) ≤ 1)%nat →
  rotate_proxy pm = get_current_proxy pm
  ∧ (get_current_proxy (rotate_proxy pm).2).1 = (get_current_proxy pm).1.
Proof.
  intros H.
  assert (Heq : rotate_proxy pm = get_current_proxy pm).
  { unfold rotate_proxy. destruct H as [-> | Hle]; [done|].
    apply Nat.leb_le in Hle. rewrite Hle. by rewrite orb_true_r. }
  split; [done|]. by rewrite Heq, get_current_proxy_idem.
Qed.

(** C6 (as amended). On a pool of N >= 1 proxies that all work, with
    rotation enabled and [current_proxy_index] below N: the current proxy
    is the one at the index, the calls of [rotate_proxy] return the
    proxies at [index + 1], [index + 2], ... modulo N, the N-th call
    returns the original proxy, and after it the state is the original
    one, so the original proxy is current again. In any state with
    rotation enabled and at least two working proxies a call advances the
    index by one modulo the number of working proxies; with rotation
    disabled or at most one proxy in the pool a call returns
    [get_current_proxy()] and leaves the current proxy unchanged. *)
Theorem rotate_proxy_cyclic (pm : t) (N : nat) :
  rotation_enabled pm = true →
  Forall (λ p, is_working p = true) (proxies pm) →
  length (proxies pm) = N →
  (1 ≤ N)%nat →
  (current_proxy_index pm < N)%nat →
  let original := (get_current_proxy pm).1 in
  original = Some (current_proxy_index pm)
  ∧ (get_current_proxy pm).2 = pm
  ∧ (∀ k, (rotate_n k pm).1
          = map (λ j, Some ((current_proxy_index pm + j) mod N)%nat) (seq 1 k))
  ∧ last (rotate_n N pm).1 = Some original
  ∧ (rotate_n N pm).2 = pm
  ∧ (get_current_proxy (rotate_n N pm).2).1 = original
  ∧ (∀ s, rotation_enabled s = true →
          (2 ≤ length (working_refs (proxies s)))%nat →
          current_proxy_index (rotate_proxy s).2
          = ((current_proxy_index s + 1)
               mod length (working_refs (proxies s)))%nat)
  ∧ (∀ s, rotation_enabled s = false ∨ (length (proxies s) ≤ 1)%nat →
          rotate_proxy s = get_current_proxy s
          ∧ (get_current_proxy (rotate_proxy s).2).1 = (get_current_proxy s).1).
Proof.
  intros Hrot Hall Hlen HN Hidx original.
  destruct pm as [ps idx rot]. simpl in Hrot, Hall, Hlen, Hidx. subst rot.
  assert (Hne : ps ≠ []) by (intros ->; simpl in Hlen; lia).
  assert (Hcur : get_current_proxy (mk ps idx true) = (Some idx, mk ps idx true)).
  { rewrite get_current_proxy_all_working by done. cbv zeta.
    destruct (Nat.leb_spec (length ps) idx); [lia | done]. }
  assert (Hmod : ((idx + N) mod N)%nat = idx).
  { rewrite Nat.Div0.add_mod, Nat.Div0.mod_same, Nat.add_0_r, Nat.Div0.mod_mod.
    apply Nat.mod_small. lia. }
  subst original. rewrite Hcur. cbn [fst snd current_proxy_index].
  split; [done|]. split; [done|]. split.
  { intros k. rewrite rotate_n_all_working by (done || lia). by rewrite Hlen. }
  rewrite rotate_n_all_working by (done || lia). cbn [fst snd]. rewrite Hlen, Hmod.
  split.
  { destruct N as [|n]; [lia|].
    rewrite seq_S, map_app. cbn [map]. rewrite last_snoc.
    change (1 + n)%nat with (S n). by rewrite Hmod. }
  split; [done|]. split; [by rewrite Hcur|]. split.
  - intros s Hs Hw. by apply rotate_proxy_advances.
  - intros s Hs. by apply rotate_proxy_noop.
Qed.

(** C6 at a pool of three fresh proxies. *)
Lemma rotate_proxy_cyclic_witness :
  rotation_enabled pool3 = true
  ∧ Forall (λ p, is_working p = true) (proxies pool3)
  ∧ length (proxies pool3) = 3%nat
  ∧ (1 ≤ 3)%nat
  ∧ (current_proxy_index pool3 < 3)%nat
  ∧ last (rotate_n 3 pool3).1 = Some (get_current_proxy pool3).1.
Proof.
  assert (H1 : rotation_enabled pool3 = true) by reflexivity.
  assert (H2 : Forall (λ p, is_working p = true) (proxies pool3))
    by (repeat constructor).
  assert (H3 : length (proxies pool3) = 3%nat) by reflexivity.
  assert (H4 : (1 ≤ 3)%nat) by lia.
  assert (H5 : (current_proxy_index pool3 < 3)%nat) by (simpl; lia).
  repeat (split; [assumption|]).
  exact (proj1 (proj2 (proj2 (proj2 (rotate_proxy_cyclic pool3 3 H1 H2 H3 H4 H5))))).
Defined.

(** C6, the claim as written fails when the index is stale: on three
    working proxies with [current_proxy_index = 4] (which
    [remove_failed_proxies] can leave behind, since it does not touch the
    index), [get_current_proxy()] names the first proxy, but three calls of
    [rotate_proxy] return the third, the first and the second, and leave
    the second one current. *)
Lemma rotate_proxy_stale_index_counterexample :
  rotation_enabled pool_stale_index = true
  ∧ Forall (λ p, is_working p = true) (proxies pool_stale_index)
  ∧ length (proxies pool_stale_index) = 3%nat
  ∧ (get_current_proxy pool_stale_index).1 = Some 0%nat
  ∧ (rotate_n 3 pool_stale_index).1 = [Some 2%nat; Some 0%nat; Some 1%nat]
  ∧ (get_current_proxy (rotate_n 3 pool_stale_index).2).1 = Some 1%nat
  ∧ (get_current_proxy (rotate_n 3 pool_stale_index).2).1
    ≠ (get_current_proxy pool_stale_index).1.
Proof.
  split; [reflexivity|]. split; [repeat constructor|].
  split; [reflexivity|]. split; [reflexivity|]. split; [reflexivity|].
  split; [reflexivity|]. discriminate.
Qed.

(** A stale index is reachable: removing the failed proxies of a pool of
    five, the current one being the last, leaves three proxies and the
    index 4. *)
Example remove_failed_proxies_leaves_stale_index :
  (remove_failed_proxies
     (mk [fresh "10.0.0.1"; fresh "10.0.0.2"; fresh "10.0.0.3";
          tested "10.0.0.4" 0 11 PrimFloat.zero;
          tested "10.0.0.5" 0 11 PrimFloat.zero] 4 true)).2
  = pool_stale_index.
Proof. reflexivity. Qed.

(** ** [get_best_proxy] *)

(** Python's [max(..., key=...)], when every key is a float that is not a
    NaN: the result splits the sequence into the elements before it, with
    strictly smaller keys, and those after it, with keys not greater. *)
Lemma max_by_split {A : Type} (key : A → Py.result Py.float) (rest : list A)
    (best : A) (kb : Py.float) :
  key best = Py.Ok kb →
  (∀ x, x ∈ best :: rest →
        ∃ k, key x = Py.Ok k ∧ PrimFloat.is_nan k = false) →
  ∃ r kr l1 l2,
    max_by key best kb rest = Py.Ok r
    ∧ key r = Py.Ok kr
    ∧ best :: rest = l1 ++ r :: l2
    ∧ (∀ x, x ∈ l1 → ∃ k, key x = Py.Ok k ∧ PrimFloat.ltb k kr = true)
    ∧ (∀ x, x ∈ l2 → ∃ k, key x = Py.Ok k ∧ PrimFloat.ltb kr k = false).
Proof.
  revert best kb. induction rest as [|x rest IH]; intros best kb Hb Hall; simpl.
  - exists best, kb, [], []. split; [done|]. split; [done|]. split; [done|].
    split; intros y Hy; by apply elem_of_nil in Hy.
  - destruct (Hall x) as (k & Hk & Hnan); [set_solver|]. rewrite Hk.
    destruct (PrimFloat.ltb kb k) eqn:E.
    + destruct (IH x k Hk) as (r & kr & l1 & l2 & Hm & Hr & Heq & H1 & H2).
      { intros y Hy. apply Hall. by right. }
      exists r, kr, (best :: l1), l2. split; [done|]. split; [done|].
      split; [by rewrite Heq|]. split; [|done].
      intros y [-> | Hy]%elem_of_cons; [|by apply H1].
      exists kb. split; [done|].
      destruct l1 as [|z l1]; simpl in Heq; injection Heq as Hx _.
      * subst r. rewrite Hk in Hr. by injection Hr as <-.
      * subst z. destruct (H1 x) as (k' & Hk' & Hlt); [by left|].
        rewrite Hk in Hk'. injection Hk' as <-.
        by eapply float_ltb_trans.
    + destruct (IH best kb Hb) as (r & kr & l1 & l2 & Hm & Hr & Heq & H1 & H2).
      { intros y [-> | Hy]%elem_of_cons; apply Hall; [by left | by right; right]. }
      destruct l1 as [|z l1]; simpl in Heq; injection Heq as Hz Hrest.
      * subst r. rewrite Hb in Hr. injection Hr as <-.
        exists best, kb, [], (x :: l2). split; [done|]. split; [done|].
        split; [simpl; congruence|].
        split; [intros y Hy; by apply elem_of_nil in Hy|].
        intros y [-> | Hy]%elem_of_cons; [by exists k | by apply H2].
      * subst z. exists r, kr, (best :: x :: l1), l2.
        split; [done|]. split; [done|]. split; [simpl; congruence|].
        split; [|done].
        destruct (H1 best) as (kb' & Hkb' & Hlt); [by left|].
        rewrite Hb in Hkb'. injection Hkb' as <-.
        intros y [-> | [-> | Hy]%elem_of_cons]%elem_of_cons.
        -- by exists kb.
        -- exists k. split; [done|]. by eapply float_le_lt_trans.
        -- apply H1. by right.
Qed.

(** An exception of [max] is an exception of the key of an element. *)
Lemma max_by_raise {A : Type} (key : A → Py.result Py.float) (rest : list A)
    (best : A) (kb : Py.float) (e : string) :
  max_by key best kb rest = Py.Raise e → ∃ x, x ∈ rest ∧ key x = Py.Raise e.
Proof.
  revert best kb. induction rest as [|x rest IH]; intros best kb; simpl; [done|].
  destruct (key x) as [k|e'] eqn:Hk.
  - destruct (PrimFloat.ltb kb k); intros (y & Hy & He)%IH; exists y;
      (split; [by right | done]).
  - intros [= <-]. exists x. split; [by left | done].
Qed.

Lemma working_pairs_from_spec (ps : list ProxyInfo) (i j : nat) (q : ProxyInfo) :
  (j, q) ∈ working_pairs_from i ps ↔
  (i ≤ j)%nat ∧ ps !! (j - i)%nat = Some q ∧ is_working q = true.
Proof.
  revert i. induction ps as [|p ps IH]; intros i; simpl.
  - split; [by intros ?%elem_of_nil | by intros (_ & ? & _)].
  - assert (Hrec : (j, q) ∈ working_pairs_from (S i) ps ↔
              (i < j)%nat ∧ (p :: ps) !! (j - i)%nat = Some q
              ∧ is_working q = true).
    { rewrite IH. split; intros (Hle & Hl & Hw).
      - split; [lia|]. split; [|done].
        replace (j - i)%nat with (S (j - S i)) by lia. done.
      - split; [lia|]. split; [|done].
        replace (j - i)%nat with (S (j - S i)) in Hl by lia. done. }
    destruct (is_working p) eqn:Hp.
    + rewrite elem_of_cons, Hrec. split.
      * intros [[= -> ->] | (? & ? & ?)].
        -- rewrite Nat.sub_diag. done.
        -- split; [lia | done].
      * intros (Hle & Hl & Hw).
        destruct (decide (j = i)) as [-> | Hne].
        -- left. rewrite Nat.sub_diag in Hl. simpl in Hl. congruence.
        -- right. split; [lia | done].
    + rewrite Hrec. split.
      * intros (? & ? & ?). split; [lia | done].
      * intros (Hle & Hl & Hw).
        destruct (decide (j = i)) as [-> | Hne].
        -- rewrite Nat.sub_diag in Hl. simpl in Hl. congruence.
        -- split; [lia | done].
Qed.

(** The working proxies are listed in pool order. *)
Lemma working_pairs_from_split (ps : list ProxyInfo) (i r : nat) (p : ProxyInfo)
    (l1 l2 : list (nat * ProxyInfo)) :
  working_pairs_from i ps = l1 ++ (r, p) :: l2 →
  (∀ j q, (j, q) ∈ l1 → (j < r)%nat) ∧ (∀ j q, (j, q) ∈ l2 → (r < j)%nat).
Proof.
  revert i l1. induction ps as [|p0 ps IH]; intros i l1; simpl.
  - by destruct l1.
  - destruct (is_working p0) eqn:Hp0; [|apply IH].
    destruct l1 as [|x l1]; simpl; intros Heq.
    + injection Heq as -> -> Hrest.
      split; [intros j q Hj; by apply elem_of_nil in Hj|].
      intros j q Hj. rewrite <- Hrest in Hj.
      apply working_pairs_from_spec in Hj as (Hle & _). lia.
    + injection Heq as <- Hrest.
      destruct (IH _ _ Hrest) as [H1 H2]. split; [|done].
      intros j q [Hjq | Hj]%elem_of_cons; [|by eapply H1].
      injection Hjq as -> ->.
      assert (Hin : (r, p) ∈ working_pairs_from (S i) ps).
      { rewrite Hrest. apply elem_of_app. right. by left. }
      apply working_pairs_from_spec in Hin as (Hle & _). lia.
Qed.

(** C9 (as amended). When the score of every working proxy is a float
    and not a NaN, [get_best_proxy] returns without raising; it returns
    [None] exactly when no proxy of the pool works, and otherwise a working
    proxy whose [calculate_score] no working proxy exceeds and which every
    working proxy before it in the pool stays strictly below (the first
    maximum wins), all in binary64 arithmetic. [calculate_score] is 0.5
    for a proxy with no recorded request and the specification's formula,
    [success_count/(success_count+failure_count) - min(avg_response_time/10, 1.0)],
    for the others. *)
Theorem get_best_proxy_argmax (pm : t) :
  (∀ j q, proxies pm !! j = Some q → is_working q = true →
          ∃ k, calculate_score q = Py.Ok k ∧ PrimFloat.is_nan k = false) →
  ∃ r,
    get_best_proxy pm = Py.Ok r
    ∧ (r = None ↔ ∀ j q, proxies pm !! j = Some q → is_working q = false)
    ∧ (∀ i p, r = Some (i, p) →
         proxies pm !! i = Some p ∧ is_working p = true
         ∧ ∃ v, calculate_score p = Py.Ok v
                ∧ ∀ j q, proxies pm !! j = Some q → is_working q = true →
                    ∃ w, calculate_score q = Py.Ok w
                         ∧ PrimFloat.ltb v w = false
                         ∧ ((j < i)%nat → PrimFloat.ltb w v = true))
    ∧ (∀ p, calculate_score p
            = if success_count p + failure_count p =? 0
              then Py.Ok (Py.lit 1 2) else spec_score p).
Proof.
  intros Hscores.
  assert (Hformula : ∀ p, calculate_score p
            = if success_count p + failure_count p =? 0
              then Py.Ok (Py.lit 1 2) else spec_score p).
  { intros p. unfold calculate_score, spec_score.
    destruct (success_count p + failure_count p =? 0); [done|].
    by destruct (Py.int_true_div _ _). }
  unfold get_best_proxy, get_working_proxies.
  destruct (working_pairs_from 0 (proxies pm)) as [|[i0 p0] rest] eqn:E.
  { exists None. split; [done|]. split; [|split; [done | exact Hformula]].
    split; [|done]. intros _ j q Hj.
    destruct (is_working q) eqn:Hq; [|done].
    assert (Hin : (j, q) ∈ working_pairs_from 0 (proxies pm)).
    { apply working_pairs_from_spec. rewrite Nat.sub_0_r. split; [lia | done]. }
    rewrite E in Hin. by apply elem_of_nil in Hin. }
  assert (Hall : ∀ x, x ∈ (i0, p0) :: rest →
            ∃ k, calculate_score x.2 = Py.Ok k ∧ PrimFloat.is_nan k = false).
  { intros [j q] Hin. rewrite <- E in Hin.
    apply working_pairs_from_spec in Hin as (_ & Hl & Hw).
    rewrite Nat.sub_0_r in Hl. by eapply Hscores. }
  destruct (Hall (i0, p0)) as (k0 & Hk0 & _); [by left|].
  rewrite Hk0.
  destruct (max_by_split (λ ip, calculate_score ip.2) rest (i0, p0) k0 Hk0 Hall)
    as ([i p] & kr & l1 & l2 & Hm & Hr & Heq & H1 & H2).
  rewrite Hm. exists (Some (i, p)). split; [done|].
  rewrite <- E in Heq.
  assert (Hin : (i, p) ∈ working_pairs_from 0 (proxies pm))
    by (rewrite Heq; set_solver).
  apply working_pairs_from_spec in Hin as (_ & Hl & Hw).
  rewrite Nat.sub_0_r in Hl.
  split; [|split; [|exact Hformula]].
  { split; [done|]. intros Hnone. rewrite (Hnone _ _ Hl) in Hw. done. }
  intros i' p' [= <- <-]. split; [done|]. split; [done|].
  exists kr. split; [done|]. intros j q Hj Hq.
  assert (Hjq : (j, q) ∈ working_pairs_from 0 (proxies pm)).
  { apply working_pairs_from_spec. rewrite Nat.sub_0_r. split; [lia | done]. }
  destruct (working_pairs_from_split _ _ _ _ _ _ Heq) as [Hbefore Hafter].
  rewrite Heq in Hjq.
  apply elem_of_app in Hjq as [Hj1 | [Hjm | Hj2]%elem_of_cons].
  - destruct (H1 _ Hj1) as (w & Hw' & Hlt). exists w. split; [done|].
    split; [|done].
    destruct (PrimFloat.ltb kr w) eqn:E2; [|done].
    pose proof (float_ltb_trans _ _ _ Hlt E2) as Hww.
    by rewrite float_ltb_irrefl in Hww.
  - injection Hjm as -> ->. exists kr. split; [done|].
    split; [apply float_ltb_irrefl | lia].
  - destruct (H2 _ Hj2) as (w & Hw' & Hge). specialize (Hafter _ _ Hj2).
    exists w. split; [done|]. split; [done | lia].
Qed.

(** C9 at two proxies whose scores differ in the last bit: 3/10 for the
    first and 1.0 - 0.7 for the second, which is the greater float. *)
Lemma get_best_proxy_argmax_witness :
  ∃ r, get_best_proxy pool_close_scores = Py.Ok r
       ∧ r = Some (1%nat, tested "10.0.0.2" 1 0 (Py.lit 7 1)).
Proof.
  destruct (get_best_proxy_argmax pool_close_scores) as (r & Hr & _).
  { intros j q Hj _.
    destruct j as [|[|j]]; simpl in Hj; [| |done]; injection Hj as <-;
      eexists; (split; [vm_compute; reflexivity | vm_compute; reflexivity]). }
  exists r. split; [exact Hr|].
  assert (Hc : get_best_proxy pool_close_scores
               = Py.Ok (Some (1%nat, tested "10.0.0.2" 1 0 (Py.lit 7 1))))
    by (vm_compute; reflexivity).
  rewrite Hr in Hc. by injection Hc.
Defined.

(** C9, the specification's wording fails: with a proxy that succeeded
    once in four requests (score 0.25) followed by an unused proxy, the
    code returns the unused one, for which the specification's formula has
    no value (its quotient divides by zero). *)
Lemma get_best_proxy_spec_score_counterexample :
  get_best_proxy pool_tested_fresh = Py.Ok (Some (1%nat, fresh "10.0.0.2"))
  ∧ spec_score (fresh "10.0.0.2") = Py.Raise "division by zero"
  ∧ ¬ is_first_argmax spec_score pool_tested_fresh
        (Some (1%nat, fresh "10.0.0.2")).
Proof.
  split; [vm_compute; reflexivity|]. split; [reflexivity|].
  intros (_ & v & Hv & _). vm_compute in Hv. discriminate.
Qed.

End ProxyManagerFacts.

(* ===================================================================== *)
(** * Properties of anti_detection.py *)
(* ===================================================================== *)

Section AntiDetectionFacts.
Import AntiDetection.

(** The shape of every result: on the normal path the confidence is the
    binary64 value [confidence_of_float] of the number of indicators, and
    [detected] tells whether there is one. *)
Lemma check_for_bot_detection_shape (page : Page) :
  match check_for_bot_detection page with
  | Scanned detected indicators confidence =>
      confidence = confidence_of_float (length indicators)
      ∧ detected = Nat.ltb 0 (length indicators)
  | ScanError detected _ => detected = false
  end.
Proof.
  unfold check_for_bot_detection.
  destruct (content page) as [html|e]; [|done].
  destruct (probe_selectors _ _ _) as [inds|e]; [|done].
  destruct (title page) as [t|e]; [|done].
  match goal with |- match (match ?l with _ => _ end) with _ => _ end =>
    destruct l as [|i l'] end; [|done].
  split; [|done]. by vm_compute.
Qed.

Lemma probe_selectors_length (page : Page) (selectors inds inds' : list string) :
  probe_selectors page selectors inds = Py.Ok inds' →
  (length inds' ≤ length inds + length selectors)%nat.
Proof.
  revert inds. induction selectors as [|sel rest IH]; intros inds; simpl.
  - intros [= <-]. lia.
  - destruct (query_selector_all page sel) as [n|e]; [|done].
    intros H%IH. destruct (Nat.ltb 0 n); [rewrite length_app in H; simpl in H|]; lia.
Qed.

Lemma filter_length_le {A : Type} (f : A → bool) (l : list A) :
  (length (List.filter f l) ≤ length l)%nat.
Proof. induction l as [|x l IH]; simpl; [done|]. destruct (f x); simpl; lia. Qed.

(** A scan collects at most [max_indicators] indicators. *)
Lemma check_for_bot_detection_bound (page : Page) :
  match check_for_bot_detection page with
  | Scanned _ indicators _ => (length indicators ≤ max_indicators)%nat
  | ScanError _ _ => True
  end.
Proof.
  unfold check_for_bot_detection.
  destruct (content page) as [html|e]; [|done].
  destruct (probe_selectors _ _ _) as [inds|e] eqn:Hprobe; [|done].
  apply probe_selectors_length in Hprobe.
  pose proof (filter_length_le
    (λ indicator, Py.str_in indicator (Py.lower html)) bot_indicators) as Hf.
  change (length bot_indicators) with 10%nat in Hf.
  change (length captcha_selectors) with 5%nat in Hprobe.
  destruct (title page) as [t|e]; [|done].
  assert (Hadd : ∀ (b : bool) (l : list string) (x : string),
            (length (if b then l ++ [x] else l) ≤ length l + 1)%nat).
  { intros [] l x; [rewrite length_app; simpl|]; lia. }
  pose proof (Hadd (Py.any_in bot_indicators (Py.lower t)) inds ("title: " +:+ t)) as H1.
  set (i1 := if Py.any_in bot_indicators (Py.lower t) then _ else inds) in *.
  pose proof (Hadd (Py.any_in ["captcha"; "verify"; "blocked"] (Py.lower (url page)))
                i1 ("url: " +:+ url page)) as H2.
  set (i2 := if Py.any_in _ (Py.lower (url page)) then _ else i1) in *.
  destruct i2 as [|x i2]; [simpl; lia|].
  unfold max_indicators. lia.
Qed.

Lemma confidence_of_float_table (n m : nat) :
  (n ≤ m)%nat → (m ≤ max_indicators)%nat →
  PrimFloat.leb PrimFloat.zero (confidence_of_float n) = true
  ∧ PrimFloat.leb (confidence_of_float m) PrimFloat.one = true
  ∧ PrimFloat.leb (confidence_of_float n) (confidence_of_float m) = true.
Proof.
  intros Hnm Hm.
  assert (Hok : float_confidences_ok = true) by (vm_compute; reflexivity).
  unfold float_confidences_ok in Hok.
  rewrite forallb_forall in Hok. specialize (Hok n).
  rewrite forallb_forall in Hok. specialize (Hok ltac:(apply in_seq; lia) m ltac:(apply in_seq; lia)).
  apply Nat.leb_le in Hnm. rewrite Hnm in Hok. simpl in Hok.
  apply andb_true_iff in Hok as [[H1 H2]%andb_true_iff H3]. done.
Qed.

(** The expression of the source, [min(n * 0.3, 1.0)], with the literals
    as the correctly rounded quotients they denote. *)
Lemma confidence_of_float_min (n : nat) :
  confidence_of_float n
  = Py.fmin (PrimFloat.mul (float_of_nat n) (Py.lit 3 10)) (Py.lit 1 1).
Proof.
  unfold confidence_of_float, Py.fmin.
  by replace (PrimFloat.div (float_of_nat 3) (float_of_nat 10)) with (Py.lit 3 10);
    [replace (float_of_nat 1) with (Py.lit 1 1)|]; vm_compute.
Qed.

(** The values taken: 0.0, 0.3, 0.6, then 0.8999999999999999 (the float
    just below 0.9, since the product rounds down), then 1.0. *)
Lemma confidence_of_float_values (n : nat) :
  (n ≤ max_indicators)%nat →
  confidence_of_float n
  = match n with
    | 0%nat => PrimFloat.zero
    | 1%nat => Py.lit 3 10
    | 2%nat => Py.lit 6 10
    | 3%nat => PrimFloat.next_down (Py.lit 9 10)
    | _ => PrimFloat.one
    end.
Proof.
  unfold max_indicators. intros Hn.
  do 18 (destruct n as [|n]; [vm_compute; reflexivity|]). lia.
Qed.

(** C7. For every page the scan completes on, the confidence is the
    binary64 value of [min(n * 0.3, 1.0)] for the number [n] of collected
    indicators (0.0, 0.3, 0.6, 0.8999999999999999, and 1.0 from four
    indicators on), [detected] holds exactly when [n >= 1], the confidence
    lies in [0, 1], and a scan with at least as many indicators reports at
    least as much confidence. When a page call raises, the result has
    [detected = False] and neither indicators nor confidence. *)
Theorem check_for_bot_detection_confidence (page page' : Page) :
  match check_for_bot_detection page with
  | Scanned detected indicators confidence =>
      confidence
      = Py.fmin (PrimFloat.mul (float_of_nat (length indicators)) (Py.lit 3 10))
          (Py.lit 1 1)
      ∧ confidence
        = match length indicators with
          | 0%nat => PrimFloat.zero
          | 1%nat => Py.lit 3 10
          | 2%nat => Py.lit 6 10
          | 3%nat => PrimFloat.next_down (Py.lit 9 10)
          | _ => PrimFloat.one
          end
      ∧ (detected = true ↔ (1 ≤ length indicators)%nat)
      ∧ PrimFloat.leb PrimFloat.zero confidence = true
      ∧ PrimFloat.leb confidence PrimFloat.one = true
      ∧ match check_for_bot_detection page' with
        | Scanned _ indicators' confidence' =>
            (length indicators ≤ length indicators')%nat →
            PrimFloat.leb confidence confidence' = true
        | ScanError _ _ => True
        end
  | ScanError detected _ => detected = false
  end.
Proof.
  pose proof (check_for_bot_detection_shape page) as H.
  pose proof (check_for_bot_detection_shape page') as H'.
  pose proof (check_for_bot_detection_bound page) as Hb.
  pose proof (check_for_bot_detection_bound page') as Hb'.
  destruct (check_for_bot_detection page) as [d inds c|d e]; [|done].
  destruct H as [-> ->].
  split; [apply confidence_of_float_min|].
  split; [by apply confidence_of_float_values|].
  split; [rewrite Nat.ltb_lt; lia|].
  destruct (confidence_of_float_table (length inds) (length inds) (le_n _) Hb)
    as (Hf0 & Hf1 & _).
  split; [done|]. split; [done|].
  destruct (check_for_bot_detection page') as [d' inds' c'|d' e']; [|done].
  destruct H' as [-> _]. intros Hle.
  by apply confidence_of_float_table.
Qed.

(** The confidence of a scan that finds three indicators is the float
    0.8999999999999999, below the real number 9/10 and below the
    float written 0.9. *)
Example check_for_bot_detection_three_indicators :
  confidence_of_float 3 = PrimFloat.next_down (Py.lit 9 10)
  ∧ PrimFloat.ltb (confidence_of_float 3) (Py.lit 9 10) = true.
Proof. split; vm_compute; reflexivity. Qed.

End AntiDetectionFacts.

(* ===================================================================== *)
(** * Properties of media_downloader.py *)
(* ===================================================================== *)

Section MediaDownloaderSettings.
Import MediaDownloader.

Lemma py_clamp (lo hi v : Z) :
  lo <= hi →
  lo <= Py.max lo (Py.min v hi) <= hi
  ∧ (v < lo → Py.max lo (Py.min v hi) = lo)
  ∧ (hi < v → Py.max lo (Py.min v hi) = hi)
  ∧ (lo <= v <= hi → Py.max lo (Py.min v hi) = v).
Proof.
  intros Hle. unfold Py.max, Py.min.
  destruct (Z.ltb_spec hi v);
    match goal with |- context [Z.ltb ?a ?b] => destruct (Z.ltb_spec a b) end;
    lia.
Qed.

Lemma py_clamp_Z (lo hi v : Z) :
  Py.max lo (Py.min v hi) = Z.max lo (Z.min v hi).
Proof.
  unfold Py.max, Py.min.
  destruct (Z.ltb_spec hi v);
    match goal with |- context [Z.ltb ?a ?b] => destruct (Z.ltb_spec a b) end;
    lia.
Qed.

Lemma configure_keeps_range (d : t) (c : ConfigureCall) :
  settings_in_range d → settings_in_range (configure d c).
Proof.
  destruct c as [[[cd dt] mfs] ra]. unfold settings_in_range, configure. simpl.
  intros (H1 & H2 & H3 & H4).
  repeat split;
    first [ by destruct cd; [apply py_clamp | lia]
          | by destruct dt; [apply py_clamp | lia]
          | by destruct mfs; [apply py_clamp | lia]
          | by destruct ra; [apply py_clamp | lia] ].
Qed.

(** C10. In every state the downloader reaches from its constructor by
    calls of [configure_download_settings], whatever their arguments, the
    four settings are in range; a supplied argument sets its setting to the
    argument clamped to the nearest bound, and an omitted one leaves its
    setting as it was. *)
Theorem configure_download_settings_invariant
    (pm : option ProxyManager.t) (calls : list ConfigureCall)
    (d : t) (cd dt mfs ra : option Z) :
  settings_in_range (foldl configure (init pm) calls)
  ∧ (let d' := configure_download_settings cd dt mfs ra d in
     concurrent_downloads d'
       = match cd with Some v => Z.max 1 (Z.min v 20) | None => concurrent_downloads d end
     ∧ download_timeout d'
       = match dt with Some v => Z.max 10 (Z.min v 300) | None => download_timeout d end
     ∧ max_file_size d'
       = match mfs with
         | Some v => Z.max 1048576 (Z.min v 1073741824)
         | None => max_file_size d
         end
     ∧ retry_attempts d'
       = match ra with Some v => Z.max 1 (Z.min v 10) | None => retry_attempts d end).
Proof.
  split.
  - induction calls as [|c calls IH] using rev_ind.
    + unfold settings_in_range, init. simpl. lia.
    + rewrite foldl_app. simpl. by apply configure_keeps_range.
  - simpl.
    repeat split;
      [ destruct cd as [v|] | destruct dt as [v|]
      | destruct mfs as [v|] | destruct ra as [v|] ]; try done;
      apply py_clamp_Z.
Qed.

End MediaDownloaderSettings.

Section MediaDownloaderRetry.
Import MediaDownloader.
Variable lib : Lib.

Lemma sleeps_of_app (tr1 tr2 : list Event) :
  sleeps_of (tr1 ++ tr2) = sleeps_of tr1 ++ sleeps_of tr2.
Proof. unfold sleeps_of. apply omap_app. Qed.

Lemma gets_of_app (tr1 tr2 : list Event) :
  gets_of (tr1 ++ tr2) = (gets_of tr1 + gets_of tr2)%nat.
Proof. unfold gets_of. by rewrite List.filter_app, length_app. Qed.

Lemma reads_of_app (tr1 tr2 : list Event) :
  reads_of (tr1 ++ tr2) = (reads_of tr1 + reads_of tr2)%nat.
Proof. unfold reads_of. by rewrite List.filter_app, length_app. Qed.

Lemma new_events_app (w w' : World) (evs : list Event) :
  trace w' = trace w ++ evs → new_events w w' = evs.
Proof. unfold new_events. intros ->. by rewrite drop_app_length. Qed.

(** One attempt issues exactly one GET, never sleeps, and leaves the
    settings, the files and the server as they were. *)
Lemma attempt_once_effects (url : string) (d : t) (w : World) :
  ∃ evs,
    trace (attempt_once lib url d w).2 = trace w ++ evs
    ∧ sleeps_of evs = [] ∧ gets_of evs = 1%nat
    ∧ retry_attempts (attempt_once lib url d w).1.2 = retry_attempts d
    ∧ max_file_size (attempt_once lib url d w).1.2 = max_file_size d
    ∧ files (attempt_once lib url d w).2 = files w
    ∧ requests (attempt_once lib url d w).2 = S (requests w)
    ∧ network (attempt_once lib url d w).2 = network w.
Proof.
  unfold attempt_once, http_get, tick, log.
  repeat case_match; simplify_eq/=;
    (eexists; split; [rewrite <- ?app_assoc; reflexivity | done]).
Qed.

Lemma on_failure_settings (e : string) (d : t) :
  retry_attempts (on_failure e d) = retry_attempts d
  ∧ max_file_size (on_failure e d) = max_file_size d.
Proof. unfold on_failure. by repeat case_match. Qed.

(** The retry loop, from iteration [attempt] with [fuel] iterations left:
    [m] attempts failed and were followed by a sleep, of 2^attempt,
    2^(attempt+1), ... seconds; one more attempt ended the loop. *)
Lemma retry_loop_backoff (url : string) (fuel : nat) (attempt : Z) (d : t) (w : World) :
  0 <= attempt →
  (fuel ≠ 0%nat → attempt + Z.of_nat fuel = retry_attempts d) →
  ∃ (m : nat) (evs : list Event),
    trace (retry_loop lib url fuel attempt d w).2 = trace w ++ evs
    ∧ sleeps_of evs = map (λ k, 2 ^ (attempt + Z.of_nat k)) (seq 0 m)
    ∧ (fuel = 0%nat → m = 0%nat ∧ evs = [])
    ∧ (fuel ≠ 0%nat → (m < fuel)%nat ∧ gets_of evs = S m)
    ∧ (∀ e, (retry_loop lib url fuel attempt d w).1.1 = Py.Raise e → S m = fuel)
    ∧ retry_attempts (retry_loop lib url fuel attempt d w).1.2 = retry_attempts d.
Proof.
  revert attempt d w. induction fuel as [|fuel IH]; intros attempt d w Hpos Hsum.
  { exists 0%nat, []. simpl. rewrite app_nil_r. by repeat split. }
  cbn [retry_loop].
  destruct (attempt_once_effects url d w)
    as (evs1 & Htr1 & Hsl1 & Hget1 & Hra1 & _).
  destruct (attempt_once lib url d w) as [[r d1] w1]. simpl in Htr1, Hra1.
  destruct r as [[file_data file_info]|e].
  { exists 0%nat, evs1. simpl. repeat split; try done; lia. }
  specialize (Hsum (Nat.neq_succ_0 _)).
  destruct (on_failure_settings e d1) as [Hra2 _].
  destruct (Z.eqb_spec attempt (retry_attempts (on_failure e d1) - 1)) as [Hlast|Hmore].
  { exists 0%nat, evs1. simpl. repeat split; try done; lia. }
  destruct (IH (attempt + 1) (on_failure e d1) (log (EvSleep (2 ^ attempt)) w1))
    as (m & evs & Htr & Hsl & _ & Hne & Hraise & Hra); [lia | lia |].
  assert (Hfuel : fuel ≠ 0%nat) by (rewrite Hra2, Hra1 in Hmore; lia).
  destruct (Hne Hfuel) as [Hm Hget].
  exists (S m), (evs1 ++ [EvSleep (2 ^ attempt)] ++ evs).
  split; [|split; [|split; [|split; [|split]]]].
  - rewrite Htr. simpl. rewrite Htr1. by rewrite <- !app_assoc.
  - rewrite !sleeps_of_app, Hsl1, Hsl. cbn [sleeps_of omap app seq map].
    rewrite Z.add_0_r. f_equal. rewrite <- seq_shift, map_map.
    apply map_ext. intros k. f_equal. lia.
  - done.
  - intros _. split; [lia|]. rewrite !gets_of_app, Hget1, Hget. simpl. lia.
  - intros e' He'. specialize (Hraise e' He'). lia.
  - by rewrite Hra, Hra2.
Qed.

(** The events of the loop are a [backoff_trace]. *)
Lemma retry_loop_trace (url : string) (fuel : nat) (attempt : Z) (d : t) (w : World) :
  fuel ≠ 0%nat →
  attempt + Z.of_nat fuel = retry_attempts d →
  ∃ evs, trace (retry_loop lib url fuel attempt d w).2 = trace w ++ evs
         ∧ backoff_trace attempt evs.
Proof.
  revert attempt d w. induction fuel as [|fuel IH]; intros attempt d w Hfuel Hsum; [done|].
  cbn [retry_loop].
  destruct (attempt_once_effects url d w)
    as (evs1 & Htr1 & Hsl1 & Hget1 & Hra1 & _).
  destruct (attempt_once lib url d w) as [[r d1] w1]. simpl in Htr1, Hra1.
  destruct r as [[file_data file_info]|e].
  { exists evs1. split; [done | by constructor]. }
  destruct (on_failure_settings e d1) as [Hra2 _].
  destruct (Z.eqb_spec attempt (retry_attempts (on_failure e d1) - 1)) as [Hlast|Hmore].
  { exists evs1. split; [done | by constructor]. }
  destruct (IH (attempt + 1) (on_failure e d1) (log (EvSleep (2 ^ attempt)) w1))
    as (evs & Htr & Hbt); [lia | lia |].
  exists (evs1 ++ EvSleep (2 ^ attempt) :: evs). split.
  - rewrite Htr. simpl. rewrite Htr1. by rewrite <- !app_assoc.
  - by apply backoff_retry.
Qed.

(** In a [backoff_trace] from iteration [k], the sleep that comes after
    [j] earlier sleeps comes after [j + 1] GETs and lasts 2^(k+j) seconds. *)
Lemma backoff_trace_sleep (k : Z) (evs : list Event) :
  backoff_trace k evs →
  ∀ pre delay post, evs = pre ++ EvSleep delay :: post →
    delay = 2 ^ (k + Z.of_nat (length (sleeps_of pre)))
    ∧ gets_of pre = S (length (sleeps_of pre)).
Proof.
  induction 1 as [k a Hget Hsl | k a rest Hget Hsl Hrest IH];
    intros pre delay post Heq.
  - subst a. rewrite sleeps_of_app in Hsl. simpl in Hsl.
    by destruct (sleeps_of pre).
  - assert (Hhere : ∀ tl, a = pre ++ EvSleep delay :: tl → False).
    { intros tl ->. rewrite sleeps_of_app in Hsl. simpl in Hsl.
      by destruct (sleeps_of pre). }
    apply app_eq_inv in Heq as [(l & Ha & Hl) | (l & Hpre & Hl)].
    + destruct l as [|x l]; simpl in Hl.
      * injection Hl as -> _. rewrite app_nil_r in Ha. subst pre.
        rewrite Hsl, Hget. simpl. by rewrite Z.add_0_r.
      * injection Hl as <- _. by destruct (Hhere l).
    + destruct l as [|x l]; simpl in Hl.
      * injection Hl as <- _. rewrite app_nil_r in Hpre. subst pre.
        rewrite Hsl, Hget. simpl. by rewrite Z.add_0_r.
      * injection Hl as <- Hl. destruct (IH _ _ _ Hl) as [-> Hg].
        subst pre. rewrite sleeps_of_app, gets_of_app, Hsl, Hget. simpl.
        fold (sleeps_of l). split; [f_equal; lia|].
        change (gets_of (EvSleep (2 ^ k) :: l)) with (gets_of l). lia.
Qed.

Lemma mark_proxy_success_no_time (r : nat) (now : DateTime) (pm : ProxyManager.t) :
  (ProxyManager.mark_proxy_success r None now pm).1 = Py.Ok tt.
Proof.
  unfold ProxyManager.mark_proxy_success.
  by destruct (ProxyManager.proxies pm !! r).
Qed.

(** An attempt raises exactly when [attempt_fails] holds of the reply it
    receives. *)
Lemma attempt_once_fails (url : string) (d : t) (w : World) :
  attempt_fails lib url (max_file_size d) (network w (requests w))
  = match (attempt_once lib url d w).1.1 with
    | Py.Raise _ => true
    | Py.Ok _ => false
    end.
Proof.
  unfold attempt_once, attempt_fails, http_get.
  destruct (match proxy_manager d with
            | Some pm =>
                let '(r, pm') := ProxyManager.get_current_proxy pm in (r, Some pm')
            | None => (None, None)
            end) as [proxy pm1].
  destruct (network w (requests w)) as [msg|status ct cl body]; [done|].
  destruct (status =? 200); [|done].
  destruct (_get_file_extension lib url ct) as [ext|e]; [|done].
  change (max_file_size (set_proxy_manager pm1 d)) with (max_file_size d).
  destruct (check_content_length cl (max_file_size d)); [done|].
  destruct body as [file_data|e]; [|done].
  destruct (proxy_manager (set_proxy_manager pm1 d)) as [pm|]; [|done].
  destruct proxy as [r|]; [|done].
  destruct (tick _) as [now w3].
  pose proof (mark_proxy_success_no_time r now pm) as Hm.
  destruct (ProxyManager.mark_proxy_success r None now pm) as [marked pm'].
  simpl in Hm. by subst marked.
Qed.

Lemma failed_prefix_spec (fails : nat → bool) (from fuel : nat) :
  (failed_prefix fails from fuel ≤ fuel)%nat
  ∧ (∀ j, (j < failed_prefix fails from fuel)%nat → fails (from + j)%nat = true)
  ∧ ((failed_prefix fails from fuel < fuel)%nat →
     fails (from + failed_prefix fails from fuel)%nat = false).
Proof.
  revert from. induction fuel as [|fuel IH]; intros from; simpl.
  { split; [lia|]. split; intros; lia. }
  destruct (fails from) eqn:E.
  - destruct (IH (S from)) as (Hle & Hall & Hstop).
    split; [lia|]. split.
    + intros [|j] Hj; [by rewrite Nat.add_0_r|].
      replace (from + S j)%nat with (S from + j)%nat by lia. apply Hall. lia.
    + intros Hlt.
      replace (from + S (failed_prefix fails (S from) fuel))%nat
        with (S from + failed_prefix fails (S from) fuel)%nat by lia.
      apply Hstop. lia.
  - split; [lia|]. split; [intros; lia|]. intros _. by rewrite Nat.add_0_r.
Qed.

Lemma failed_prefix_ge (fails : nat → bool) (from fuel k : nat) :
  (k ≤ fuel)%nat →
  (∀ j, (j < k)%nat → fails (from + j)%nat = true) →
  (k ≤ failed_prefix fails from fuel)%nat.
Proof.
  intros Hk Hall.
  destruct (failed_prefix_spec fails from fuel) as (Hle & _ & Hstop).
  destruct (Nat.le_gt_cases k (failed_prefix fails from fuel)) as [|Hlt]; [done|].
  rewrite Hall in Hstop by done. discriminate Hstop. lia.
Qed.

(** The retry loop against the server: with [m] the number of replies,
    among the next [fuel], that fail one after the other, the loop sleeps
    after each of the first [m] attempts but the last of the loop, raises
    when all [fuel] attempts fail and returns the data of attempt [m]
    otherwise. *)
Lemma retry_loop_failures (url : string) (fuel : nat) (attempt : Z) (d : t) (w : World) :
  0 <= attempt →
  (fuel ≠ 0%nat → attempt + Z.of_nat fuel = retry_attempts d) →
  ∃ evs,
    trace (retry_loop lib url fuel attempt d w).2 = trace w ++ evs
    ∧ sleeps_of evs
      = map (λ k, 2 ^ (attempt + Z.of_nat k))
          (seq 0 (Nat.min
                    (failed_prefix
                       (λ j, attempt_fails lib url (max_file_size d) (network w j))
                       (requests w) fuel)
                    (fuel - 1)))
    ∧ match (retry_loop lib url fuel attempt d w).1.1 with
      | Py.Raise _ =>
          failed_prefix
            (λ j, attempt_fails lib url (max_file_size d) (network w j))
            (requests w) fuel = fuel
          ∧ fuel ≠ 0%nat
      | Py.Ok (Some _, _) =>
          (failed_prefix
             (λ j, attempt_fails lib url (max_file_size d) (network w j))
             (requests w) fuel < fuel)%nat
      | Py.Ok (None, _) => fuel = 0%nat
      end.
Proof.
  revert attempt d w. induction fuel as [|fuel IH]; intros attempt d w Hpos Hsum.
  { exists []. simpl. by rewrite app_nil_r. }
  cbn [retry_loop failed_prefix].
  rewrite attempt_once_fails.
  destruct (attempt_once_effects url d w)
    as (evs1 & Htr1 & Hsl1 & Hget1 & Hra1 & Hmax1 & _ & Hreq1 & Hnet1).
  destruct (attempt_once lib url d w) as [[r d1] w1].
  simpl in Htr1, Hra1, Hmax1, Hreq1, Hnet1. cbn [fst snd].
  destruct r as [[file_data file_info]|e].
  { exists evs1. simpl. split; [done|]. split; [done | lia]. }
  specialize (Hsum (Nat.neq_succ_0 _)).
  destruct (on_failure_settings e d1) as [Hra2 Hmax2].
  destruct (Z.eqb_spec attempt (retry_attempts (on_failure e d1) - 1)) as [Hlast|Hmore].
  { assert (fuel = 0%nat) as -> by (rewrite Hra2, Hra1 in Hlast; lia).
    exists evs1. simpl. split; [done|]. split; [done|]. split; [done | lia]. }
  assert (Hfuel : fuel ≠ 0%nat) by (rewrite Hra2, Hra1 in Hmore; lia).
  destruct (IH (attempt + 1) (on_failure e d1) (log (EvSleep (2 ^ attempt)) w1))
    as (evs & Htr & Hsl & Hres); [lia | rewrite Hra2, Hra1; lia |].
  cbn [log requests network] in Hsl, Hres.
  rewrite Hmax2, Hmax1, Hreq1, Hnet1 in Hsl, Hres.
  set (m := failed_prefix _ (S (requests w)) fuel) in *.
  exists (evs1 ++ [EvSleep (2 ^ attempt)] ++ evs).
  split; [|split].
  - rewrite Htr. simpl. rewrite Htr1. by rewrite <- !app_assoc.
  - rewrite !sleeps_of_app, Hsl1, Hsl.
    replace (Nat.min (S m) (S fuel - 1)) with (S (Nat.min m (fuel - 1))) by lia.
    cbn [sleeps_of omap app seq map].
    rewrite Z.add_0_r. f_equal. rewrite <- seq_shift, map_map.
    apply map_ext. intros k. f_equal. lia.
  - destruct (retry_loop lib url fuel (attempt + 1) _ _) as [[[[[data|] info]|e'] d2] w2];
      simpl in Hres |- *; [lia | done | split; [lia | done]].
Qed.

(** C8. The sleeps of one call of [_download_file_data] are 2^0, 2^1, ...
    seconds: the sleep that follows the failed attempt k (the one after
    k + 1 GETs) is of 2^k seconds and exists only for k < retry_attempts - 1,
    each delay is greater than the one before it, and when the call ends by
    raising, all the retry_attempts - 1 delays were slept. Against the
    server: attempt j of the call receives the j-th next reply; whenever
    the attempts 0 to k fail, with k < retry_attempts - 1, the delay of
    2^k seconds is slept, and a delay is slept only after failed attempts;
    the delays are exactly those of the failed attempts before the first
    attempt that succeeds, the last attempt of the loop left out; the call
    raises when all its attempts fail and returns the data of the first
    attempt that succeeds otherwise, and returns no data only when
    retry_attempts is not positive. *)
Theorem download_backoff_delays (url : string) (d : t) (w : World) :
  let out := _download_file_data lib url d w in
  let delays := sleeps_of (new_events w out.2) in
  let fails := λ j : nat,
    attempt_fails lib url (max_file_size d) (network w (requests w + j)%nat) in
  (∃ m : nat,
      delays = map (λ k, 2 ^ Z.of_nat k) (seq 0 m)
      ∧ Z.of_nat m <= Z.max 0 (retry_attempts d - 1)
      ∧ (1 <= retry_attempts d → gets_of (new_events w out.2) = S m)
      ∧ (∀ e, out.1.1 = Py.Raise e → Z.of_nat m = retry_attempts d - 1))
  ∧ (∀ pre delay post, new_events w out.2 = pre ++ EvSleep delay :: post →
       delay = 2 ^ Z.of_nat (length (sleeps_of pre))
       ∧ gets_of pre = S (length (sleeps_of pre)))
  ∧ (∀ (k : nat) delay, delays !! k = Some delay →
       delay = 2 ^ Z.of_nat k ∧ Z.of_nat k < retry_attempts d - 1)
  ∧ (∀ (k : nat) a b, delays !! k = Some a → delays !! S k = Some b → a < b)
  ∧ (∀ k : nat, Z.of_nat k < retry_attempts d - 1 →
       (∀ j : nat, (j ≤ k)%nat → fails j = true) →
       delays !! k = Some (2 ^ Z.of_nat k))
  ∧ (∀ (k : nat) delay, delays !! k = Some delay →
       ∀ j : nat, (j ≤ k)%nat → fails j = true)
  ∧ delays
    = map (λ k, 2 ^ Z.of_nat k)
        (seq 0 (Nat.min
                  (failed_prefix
                     (λ j, attempt_fails lib url (max_file_size d) (network w j))
                     (requests w) (Z.to_nat (retry_attempts d)))
                  (Z.to_nat (retry_attempts d) - 1)))
  ∧ match out.1.1 with
    | Py.Raise _ =>
        1 <= retry_attempts d
        ∧ ∀ j : nat, Z.of_nat j < retry_attempts d → fails j = true
    | Py.Ok (Some _, _) =>
        ∃ i : nat, Z.of_nat i < retry_attempts d ∧ fails i = false
                   ∧ ∀ j : nat, (j < i)%nat → fails j = true
    | Py.Ok (None, _) => retry_attempts d <= 0
    end.
Proof.
  intros out delays fails. subst out delays. unfold _download_file_data.
  assert (Hpos : ∀ pre delay post,
            new_events w (retry_loop lib url (Z.to_nat (retry_attempts d)) 0 d w).2
            = pre ++ EvSleep delay :: post →
            delay = 2 ^ Z.of_nat (length (sleeps_of pre))
            ∧ gets_of pre = S (length (sleeps_of pre))).
  { intros pre delay post Heq.
    destruct (decide (Z.to_nat (retry_attempts d) = 0%nat)) as [E|E].
    - rewrite E in Heq. unfold new_events in Heq. simpl in Heq.
      rewrite drop_all in Heq. by destruct pre.
    - destruct (retry_loop_trace url (Z.to_nat (retry_attempts d)) 0 d w)
        as (evs & Htr & Hbt); [done | lia |].
      rewrite (new_events_app _ _ _ Htr) in Heq.
      by destruct (backoff_trace_sleep 0 evs Hbt pre delay post Heq). }
  destruct (retry_loop_backoff url (Z.to_nat (retry_attempts d)) 0 d w)
    as (m & evs & Htr & Hsl & H0 & Hne & Hraise & _); [lia | lia |].
  destruct (retry_loop_failures url (Z.to_nat (retry_attempts d)) 0 d w)
    as (evs' & Htr' & Hsl' & Hres); [lia | lia |].
  rewrite Htr in Htr'. apply app_inv_head in Htr'. subst evs'.
  set (n := Z.to_nat (retry_attempts d)) in *.
  set (fp := failed_prefix _ (requests w) n) in *.
  destruct (failed_prefix_spec
              (λ j, attempt_fails lib url (max_file_size d) (network w j))
              (requests w) n) as (Hfple & Hfpall & Hfpstop).
  fold fp in Hfple, Hfpall, Hfpstop.
  rewrite (new_events_app _ _ _ Htr) in Hpos.
  rewrite (new_events_app _ _ _ Htr).
  assert (Hbound : Z.of_nat m <= Z.max 0 (retry_attempts d - 1)).
  { destruct (decide (n = 0%nat)) as [E|E].
    - destruct (H0 E) as [-> _]. lia.
    - destruct (Hne E). lia. }
  assert (Hlookup : ∀ (k : nat) delay,
            map (λ k : nat, 2 ^ (0 + Z.of_nat k)) (seq 0 m) !! k = Some delay →
            delay = 2 ^ Z.of_nat k ∧ (k < m)%nat).
  { intros k delay Hk. apply list_lookup_fmap_Some in Hk as (j & -> & Hj).
    apply lookup_seq in Hj as [-> Hlt]. by rewrite !Z.add_0_l. }
  assert (Hlookup' : ∀ k : nat, (k < Nat.min fp (n - 1))%nat →
            map (λ k : nat, 2 ^ (0 + Z.of_nat k)) (seq 0 (Nat.min fp (n - 1))) !! k
            = Some (2 ^ Z.of_nat k)).
  { intros k Hk. rewrite list_lookup_fmap, lookup_seq_lt by done.
    simpl. by rewrite Z.add_0_l. }
  assert (Hm : m = Nat.min fp (n - 1)).
  { rewrite Hsl in Hsl'. apply (f_equal length) in Hsl'.
    by rewrite !length_map, !length_seq in Hsl'. }
  split; [|split; [exact Hpos|split; [|split; [|split; [|split; [|split]]]]]].
  - rewrite Hsl. exists m. split; [|split; [done|split]].
    + apply map_ext. intros k. by rewrite Z.add_0_l.
    + intros Hra. apply Hne. lia.
    + intros e He. specialize (Hraise e He). lia.
  - rewrite Hsl. intros k delay Hk. apply Hlookup in Hk as [-> Hlt]. split; [done|lia].
  - rewrite Hsl. intros k a b Ha Hb.
    apply Hlookup in Ha as [-> _]. apply Hlookup in Hb as [-> _].
    apply Z.pow_lt_mono_r; lia.
  - intros k Hk Hall. rewrite Hsl'. apply Hlookup'.
    assert ((S k ≤ fp)%nat); [|lia].
    apply failed_prefix_ge; [lia|]. intros j Hj. apply Hall. lia.
  - rewrite Hsl. intros k delay Hk j Hj.
    apply Hlookup in Hk as [_ Hlt]. apply Hfpall. lia.
  - rewrite Hsl'. apply map_ext. intros k. by rewrite Z.add_0_l.
  - destruct (retry_loop lib url n 0 d w) as [[[[[data|] info]|e] d'] w'];
      simpl in Hres |- *.
    + exists fp. split; [lia|]. split; [by apply Hfpstop|]. intros j Hj. by apply Hfpall.
    + lia.
    + destruct Hres as [Hall Hn]. split; [lia|].
      intros j Hj. apply Hfpall. lia.
Qed.

(** One failed attempt of three is followed by the sleep of one second
    and by a second attempt. *)
Example download_backoff_one_failure :
  let w := mkWorld ∅ (λ _, true) example_clock 0
             (λ n, match n with
                   | O => GetRaises "Connection reset by peer"
                   | _ => Response 200 (Some "image/jpeg") (Length 50)
                            (Py.Ok (replicate 50 Byte.x00))
                   end) 0 [] in
  new_events w (_download_file_data example_lib example_url (init None) w).2
  = [EvGet example_url None; EvSleep 1; EvGet example_url None; EvRead].
Proof. vm_compute. reflexivity. Qed.

End MediaDownloaderRetry.


Section MediaDownloaderCoroutines.
Import MediaDownloader.
Variable lib : Lib.


(** *** An uninterrupted coroutine is the direct call *)





Lemma run_coro_ret {A : Type} (a : A) (d : t) (w : World) :
  run_coro (ret a) d w = (a, d, w).
Proof. done. Qed.

Lemma run_coro_leave {A : Type} (r : Py.result A) (d : t) (w : World) :
  run_coro (leave r) d w = (r, d, w).
Proof. done. Qed.









End MediaDownloaderCoroutines.


Section MediaDownloaderTasks.
Import MediaDownloader.
Variable lib : Lib.

(** *** What a task becomes *)








End MediaDownloaderTasks.


Section MediaDownloaderTaskCounts.
Import MediaDownloader.
Variable lib : Lib.

(** *** What the steps of a task preserve *)







#[local] Instance same_total_downloads_refl : Reflexive same_total_downloads.
Proof. by intros d. Qed.

#[local] Instance same_total_downloads_trans : Transitive same_total_downloads.
Proof. intros d1 d2 d3. unfold same_total_downloads. congruence. Qed.






(** *** [total_downloads] counts the calls that have ended *)






End MediaDownloaderTaskCounts.


Section MediaDownloaderBatch.
Import MediaDownloader.
Variable lib : Lib.

(** Whatever happens, the result of [download_media_file] carries the url,
    the movie and the type it was called with, and no exception escapes
    (the model is a total function). *)
Lemma download_media_file_fields (u : string) (m : Z) (ft q : string) (f : bool)
    (d : t) (w : World) :
  url (download_media_file lib u m ft q f d w).1.1 = u
  ∧ movie_id (download_media_file lib u m ft q f d w).1.1 = m
  ∧ file_type (download_media_file lib u m ft q f d w).1.1 = ft.
Proof.
  unfold download_media_file, download_body.
  repeat case_match; simplify_eq/=; done.
Qed.

Lemma download_with_semaphore_answers (request : Request) (d : t) (w : World) :
  answers request (process_result request (download_with_semaphore lib request d w).1.1).
Proof.
  destruct request as [u m ft q f|e]; simpl; [|done].
  pose proof (download_media_file_fields u m ft (default "original" q)
                (default false f) d w) as H.
  by destruct (download_media_file lib u m ft _ _ d w) as [[r d1] w1].
Qed.

(** *** The slots *)

















(** *** The steps of the event loop keep the invariant *)






(** *** Every task ends *)



Lemma filter_running_nil (pool : list Slot) :
  Forall (λ slot, is_running slot = false) pool → List.filter is_running pool = [].
Proof. induction 1 as [|slot pool Hs _ IH]; simpl; [done|]. by rewrite Hs. Qed.






(** *** One task at a time *)




Lemma running_waiting (m : nat) : running (replicate m Waiting) = 0.
Proof.
  unfold running. rewrite filter_running_nil; [done|].
  apply Forall_forall. by intros slot [-> _]%elem_of_replicate.
Qed.











(** *** The batch *)

(** With no place in the semaphore no task ever starts. *)
Lemma download_multiple_files_no_place (download_requests : list Request)
    (max_concurrent : option Z) (schedule : list nat) (d : t) (w : World) :
  default (concurrent_downloads d) max_concurrent = 0 →
  download_requests ≠ [] →
  download_multiple_files lib download_requests max_concurrent schedule d w
  = NeverCompletes.
Proof.
  intros Hlimit Hne. unfold download_multiple_files. rewrite Hlimit. cbn [Z.ltb Z.compare].
  assert (Hseg : ∀ n i,
            run_segment lib download_requests 0 (replicate n Waiting, d, w) i
            = (replicate n Waiting, d, w)).
  { intros n i. unfold run_segment.
    destruct (replicate n Waiting !! i) as [slot|] eqn:Hs;
      [|by destruct (download_requests !! i)].
    apply lookup_replicate in Hs as [-> _].
    destruct (download_requests !! i); [|done].
    rewrite running_waiting. by rewrite andb_false_r. }
  assert (Hend : ∀ n i,
            run_to_end lib download_requests 0 (replicate n Waiting, d, w) i
            = (replicate n Waiting, d, w)).
  { intros n i. unfold run_to_end.
    destruct (replicate n Waiting !! i) as [slot|] eqn:Hs;
      [|by destruct (download_requests !! i)].
    apply lookup_replicate in Hs as [-> _].
    destruct (download_requests !! i); [|done].
    rewrite running_waiting. by rewrite andb_false_r. }
  unfold gather.
  assert (H1 : foldl (run_segment lib download_requests 0)
                 (replicate (length download_requests) Waiting, d, w) schedule
               = (replicate (length download_requests) Waiting, d, w)).
  { induction schedule as [|i schedule IH]; [done|]. cbn [foldl]. by rewrite Hseg. }
  rewrite H1.
  assert (H2 : ∀ l, foldl (run_to_end lib download_requests 0)
                      (replicate (length download_requests) Waiting, d, w) l
                    = (replicate (length download_requests) Waiting, d, w)).
  { induction l as [|i l IH]; [done|]. cbn [foldl]. by rewrite Hend. }
  rewrite H2. by destruct download_requests.
Qed.


End MediaDownloaderBatch.

Section MediaDownloaderBatchExample.
Import MediaDownloader.



(** Two tasks that overlap: both requests are sent before either body
    is read, and the third task names its file, after the clock, before
    the first does and writes it after. *)
Example download_multiple_files_overlap :
  match download_multiple_files example_lib example_requests (Some 2)
          [0; 1; 2; 0; 2; 0; 2; 2; 0; 0; 2]%nat (init None) small_world with
  | Completed _ _ w' =>
      trace w'
      = [EvGet example_url None; EvGet example_url None; EvRead; EvRead;
         EvWrite "data/downloads/movie_7/20240101_120003_movie_7_poster.jpg";
         EvWrite "data/downloads/movie_8/20240101_120002_movie_8_still.jpg"]
  | _ => False
  end.
Proof. vm_compute. reflexivity. Qed.

End MediaDownloaderBatchExample.

Section MediaDownloaderOversized.
Import MediaDownloader.
Variable lib : Lib.

Lemma valid_url_extension (url : string) (ct : option string) :
  _is_valid_url lib url = true → ∃ ext, _get_file_extension lib url ct = Py.Ok ext.
Proof.
  unfold _is_valid_url, _get_file_extension.
  destruct (urlparse lib url) as [parsed|]; [|done]. intros _.
  repeat case_match; by eexists.
Qed.

(** An attempt that meets a declared length above the limit raises
    "File too large" right after the GET: the body is not read. *)
Lemma attempt_once_oversized (url : string) (d : t) (w : World)
    (ct : option string) (n : Z) (body : Py.result bytes) :
  _is_valid_url lib url = true →
  network w (requests w) = Response 200 ct (Length n) body →
  max_file_size d < n →
  (attempt_once lib url d w).1.1 = Py.Raise (file_too_large n)
  ∧ ∃ proxy_url, trace (attempt_once lib url d w).2 = trace w ++ [EvGet url proxy_url].
Proof.
  intros Hvalid Hnet Hmax.
  destruct (valid_url_extension url ct Hvalid) as [ext Hext].
  unfold attempt_once, http_get. rewrite Hnet.
  assert (Hlim : check_content_length (Length n) (max_file_size d)
                 = Some (file_too_large n)).
  { simpl. destruct (Z.ltb_spec (max_file_size d) n); [done | lia]. }
  destruct (proxy_manager d) as [pm|].
  - destruct (ProxyManager.get_current_proxy pm) as [r pm'].
    cbn -[check_content_length]. rewrite Hext, Hlim. simpl. eauto.
  - cbn -[check_content_length]. rewrite Hext, Hlim. simpl. eauto.
Qed.

(** The retry loop against a server that always declares [n] bytes, above
    the limit: every one of the remaining attempts issues its GET and
    fails, with the backoff sleeps in between, and the loop raises. *)
Lemma retry_loop_oversized (url : string) (n : Z) (fuel : nat) (attempt : Z)
    (d : t) (w : World) :
  _is_valid_url lib url = true →
  max_file_size d < n →
  (∀ k, ∃ ct body, network w k = Response 200 ct (Length n) body) →
  attempt + Z.of_nat fuel = retry_attempts d →
  fuel ≠ 0%nat →
  (retry_loop lib url fuel attempt d w).1.1 = Py.Raise (file_too_large n)
  ∧ ∃ evs, trace (retry_loop lib url fuel attempt d w).2 = trace w ++ evs
           ∧ gets_of evs = fuel ∧ reads_of evs = 0%nat.
Proof.
  intros Hvalid. revert attempt d w.
  induction fuel as [|fuel IH]; intros attempt d w Hmax Hnet Hsum Hfuel; [done|].
  cbn [retry_loop].
  destruct (Hnet (requests w)) as (ct & body & Hreply).
  destruct (attempt_once_oversized url d w ct n body Hvalid Hreply Hmax)
    as (Hres & pu & Htr).
  destruct (attempt_once_effects lib url d w)
    as (_ & _ & _ & _ & Hra1 & Hmf1 & _ & _ & Hnet1).
  destruct (attempt_once lib url d w) as [[r d1] w1].
  simpl in Hres, Htr, Hra1, Hmf1, Hnet1. subst r.
  destruct (on_failure_settings (file_too_large n) d1) as [Hra2 Hmf2].
  destruct (Z.eqb_spec attempt (retry_attempts (on_failure (file_too_large n) d1) - 1))
    as [Hlast|Hmore].
  - simpl. split; [done|]. exists [EvGet url pu]. split; [done|].
    split; [|done]. unfold gets_of. simpl. lia.
  - destruct (IH (attempt + 1) (on_failure (file_too_large n) d1)
               (log (EvSleep (2 ^ attempt)) w1))
      as (Hres' & evs & Htr' & Hget & Hread); [lia | | lia | lia |].
    { intros k. simpl. rewrite Hnet1. apply Hnet. }
    split; [done|].
    exists ([EvGet url pu] ++ [EvSleep (2 ^ attempt)] ++ evs).
    split; [|split].
    + rewrite Htr'. simpl. rewrite Htr. by rewrite <- !app_assoc.
    + rewrite !gets_of_app, Hget. done.
    + rewrite !reads_of_app, Hread. done.
Qed.

(** What the code does with an oversized declared length, in general: no
    exception escapes, the result has [success = False] and the error
    "File too large", the body is never read, and the URL is fetched once
    per configured attempt. *)
Lemma download_media_file_oversized (url : string) (movie_id' : Z)
    (file_type' quality : string) (force_download : bool) (d : t) (w : World)
    (n : Z) :
  _is_valid_url lib url = true →
  files w = ∅ →
  1 <= retry_attempts d →
  max_file_size d < n →
  (∀ k, ∃ ct body, network w k = Response 200 ct (Length n) body) →
  let out := download_media_file lib url movie_id' file_type' quality
               force_download d w in
  success out.1.1 = false
  ∧ error out.1.1 = Some (file_too_large n)
  ∧ reads_of (new_events w out.2) = 0%nat
  ∧ gets_of (new_events w out.2) = Z.to_nat (retry_attempts d).
Proof.
  intros Hvalid Hfiles Hra Hmax Hnet out. subst out.
  unfold download_media_file, download_body. rewrite Hvalid. cbn [negb].
  unfold _generate_filename.
  destruct (valid_url_extension url None Hvalid) as [ext ->].
  cbn [tick].
  set (w1 := mkWorld _ _ _ _ _ _ _).
  assert (Hcheck : ∀ name, _check_existing_file lib name movie_id' w1 = None).
  { intros name. unfold _check_existing_file. simpl. by rewrite Hfiles. }
  rewrite Hcheck.
  assert (Hskip : ∀ A, (if force_download then None else None) = @None A)
    by (by destruct force_download).
  rewrite Hskip.
  unfold _download_file_data.
  destruct (retry_loop_oversized url n (Z.to_nat (retry_attempts d)) 0 d w1)
    as (Hres & evs & Htr & Hget & Hread); [done | done | done | lia | lia |].
  destruct (retry_loop lib url _ 0 d w1) as [[r d2] w2].
  simpl in Hres, Htr. subst r. simpl.
  rewrite (new_events_app w w2 evs) by done. done.
Qed.

End MediaDownloaderOversized.

Section MediaDownloaderIdempotence.
Import MediaDownloader.
Variable lib : Lib.

(** The name the existing-file check looks for starts with "movie_"; the
    names the storage service writes start with a timestamp. No stored file
    is ever found by the check. *)
Lemma check_name_free (w : World) (movie_id' : Z) (rest : string) :
  stored_by_service w →
  files w !! (movie_dir movie_id' +:+ "/" +:+ "movie_" +:+ rest) = None.
Proof.
  intros Hstored.
  destruct (files w !! _) as [data|] eqn:Hlook; [|done]. exfalso.
  destruct (Hstored _ (mk_is_Some _ _ Hlook)) as (id2 & now & safe & Heq).
  unfold movie_dir in Heq. rewrite !append_assoc in Heq.
  apply (inj (String.append "data/downloads/movie_")) in Heq.
  rewrite !(append_cons "/"), !append_nil in Heq.
  apply split_at_slash in Heq as [_ Heq]; [|apply str_int_no_slash..].
  destruct (strftime_head now) as (c & r & Hts & Hc).
  rewrite Hts, !append_cons in Heq. injection Heq as <- _. done.
Qed.

Lemma retry_loop_files (url : string) (fuel : nat) (attempt : Z) (d : t) (w : World) :
  files (retry_loop lib url fuel attempt d w).2 = files w.
Proof.
  revert attempt d w. induction fuel as [|fuel IH]; intros attempt d w; [done|].
  cbn [retry_loop].
  destruct (attempt_once_effects lib url d w) as (_ & _ & _ & _ & _ & _ & Hf & _).
  destruct (attempt_once lib url d w) as [[r d1] w1]. simpl in Hf.
  destruct r as [[file_data file_info]|e]; [done|].
  destruct (_ =? _); [done|]. by rewrite IH.
Qed.

(** A download leaves the files as they were or adds one file written by
    the storage service. *)
Lemma download_media_file_files (url : string) (movie_id' : Z)
    (file_type' quality : string) (force_download : bool) (d : t) (w : World) :
  let out := download_media_file lib url movie_id' file_type' quality
               force_download d w in
  files out.2 = files w
  ∨ ∃ now safe_name data,
      files out.2
      = <[movie_dir movie_id' +:+ "/" +:+ strftime now +:+ "_" +:+ safe_name := data]>
          (files w).
Proof.
  intros out. subst out.
  unfold download_media_file, download_body, _generate_filename,
    _download_file_data, save_downloaded_media, _generate_safe_filename, tick.
  destruct (negb (_is_valid_url lib url)); [by left|].
  destruct (_get_file_extension lib url None) as [ext|e]; [|by left].
  destruct (if force_download then None else _) as [[[[? ?] ?] ?]|]; [by left|].
  set (w1 := mkWorld _ _ _ _ _ _ _).
  pose proof (retry_loop_files url (Z.to_nat (retry_attempts d)) 0 d w1) as Hf.
  destruct (retry_loop lib url _ 0 d w1) as [[r d2] w2]. simpl in Hf.
  destruct r as [[[[|b data]|] info]|e]; try (left; exact Hf).
  destruct (_ <? _); [left; exact Hf|].
  match goal with |- context [writable ?w ?p] => destruct (writable w p) end.
  - right. simpl. rewrite Hf. by eexists _, _, _.
  - left. exact Hf.
Qed.

Lemma stored_by_service_insert (w w' : World) (movie_id' : Z) (now : DateTime)
    (safe_name : string) (data : bytes) :
  stored_by_service w →
  files w' = files w
  ∨ files w' = <[movie_dir movie_id' +:+ "/" +:+ strftime now +:+ "_" +:+ safe_name := data]>
                 (files w) →
  stored_by_service w'.
Proof.
  intros Hstored [Hf | Hf] file_path; rewrite Hf; [apply Hstored|].
  destruct (decide (file_path
              = movie_dir movie_id' +:+ "/" +:+ strftime now +:+ "_" +:+ safe_name))
    as [-> | Hne].
  - intros _. by eexists _, _, _.
  - rewrite lookup_insert_ne by done. apply Hstored.
Qed.

(** What the code does with a repeated download, in general: as long as the
    download directory holds only files the storage service wrote (an empty
    directory to begin with), no call with [force_download=False] and a
    valid URL finds an existing file; each one goes to the network, and the
    directory stays of that kind. *)
Lemma download_media_file_never_skips (url : string) (movie_id' : Z)
    (file_type' quality : string) (d : t) (w : World) :
  stored_by_service w →
  _is_valid_url lib url = true →
  1 <= retry_attempts d →
  let out := download_media_file lib url movie_id' file_type' quality false d w in
  (1 ≤ gets_of (new_events w out.2))%nat ∧ stored_by_service out.2.
Proof.
  intros Hstored Hvalid Hra out. split.
  - subst out.
    unfold download_media_file, download_body, _generate_filename. rewrite Hvalid.
    destruct (valid_url_extension lib url None Hvalid) as [ext ->].
    cbn [negb tick]. set (w1 := mkWorld _ _ _ _ _ _ _).
    unfold _check_existing_file. rewrite (check_name_free w1) by done.
    unfold _download_file_data.
    destruct (retry_loop_backoff lib url (Z.to_nat (retry_attempts d)) 0 d w1)
      as (m & evs & Htr & _ & _ & Hne & _); [lia | lia |].
    destruct (Hne ltac:(lia)) as [_ Hget].
    destruct (retry_loop lib url _ 0 d w1) as [[r d2] w2]. simpl in Htr.
    assert (Hnew : ∀ w3, (∃ more, trace w3 = trace w2 ++ more) →
                         (1 ≤ gets_of (new_events w w3))%nat).
    { intros w3 [more Hmore].
      rewrite (new_events_app w w3 (evs ++ more)).
      - rewrite gets_of_app, Hget. lia.
      - rewrite Hmore, Htr. simpl. by rewrite <- app_assoc. }
    unfold save_downloaded_media, _generate_safe_filename, tick, write_file.
    repeat case_match; simplify_eq/=; apply Hnew; simpl;
      first [ by exists [] ; rewrite app_nil_r | by eexists ].
  - pose proof (download_media_file_files url movie_id' file_type' quality false d w)
      as [Hf | (now & safe & data & Hf)].
    + eapply (stored_by_service_insert w _ 0 (mkDateTime 0 0 0 0 0 0) EmptyString []);
        [done | by left].
    + eapply stored_by_service_insert; [done | right; exact Hf].
Qed.

End MediaDownloaderIdempotence.

(* ===================================================================== *)
(** * Where the code departs from the specification *)
(* ===================================================================== *)

Section FailingInputs.
Import MediaDownloader.

(** C1, at its failing input: an empty download directory, a server that
    answers 200 with a 50-byte JPEG, and the same call twice with
    [force_download=False]. The first call stores the file under a name
    that starts with the time of the write; the second call looks for a
    name that starts with "movie_" and ends with the time of the call,
    finds nothing, and fetches the URL again. It does so even when the
    clock stands still between the calls. *)
Theorem second_download_fetches_again :
  let call := download_media_file example_lib example_url 7 "poster" "high" false in
  let first := call (init None) small_world in
  let second := call first.1.2 first.2 in
  let first' := call (init None) frozen_world in
  let second' := call first'.1.2 first'.2 in
  success first.1.1 = true
  ∧ local_path first.1.1
    = Some "data/downloads/movie_7/20240101_120001_movie_7_poster.jpg"
  ∧ (_generate_filename example_lib example_url 7 "poster" "high" first.2).1
    = Py.Ok "movie_7_poster_high_20240101_120002.jpg"
  ∧ success second.1.1 = true
  ∧ gets_of (new_events first.2 second.2) = 1%nat
  ∧ gets_of (trace second.2) = 2%nat
  ∧ gets_of (new_events first'.2 second'.2) = 1%nat.
Proof. vm_compute. by repeat split. Qed.

(** C4, at its failing input: the default downloader (three attempts, 100
    MiB limit) and a server that declares 104857601 bytes. The file is
    rejected before the body is read and the result carries the error, but
    the URL is fetched three times, with the backoff sleeps in between. *)
Theorem oversized_content_length_is_retried :
  let out := download_media_file example_lib example_url 7 "poster" "high" false
               (init None) oversized_world in
  success out.1.1 = false
  ∧ error out.1.1 = Some "File too large: 104857601 bytes"
  ∧ trace out.2
    = [EvGet example_url None; EvSleep 1; EvGet example_url None; EvSleep 2;
       EvGet example_url None]
  ∧ reads_of (trace out.2) = 0%nat
  ∧ gets_of (trace out.2) = 3%nat.
Proof. vm_compute. by repeat split. Qed.

(** The general statements at the same inputs. *)
Example download_media_file_never_skips_example :
  let out := download_media_file example_lib example_url 7 "poster" "high" false
               (init None) small_world in
  (1 ≤ gets_of (new_events small_world out.2))%nat ∧ stored_by_service out.2.
Proof.
  apply download_media_file_never_skips; [|done|done].
  intros file_path [data Hdata]. simpl in Hdata. by rewrite lookup_empty in Hdata.
Qed.

Example download_media_file_oversized_example :
  let out := download_media_file example_lib example_url 7 "poster" "high" false
               (init None) oversized_world in
  success out.1.1 = false
  ∧ error out.1.1 = Some (file_too_large 104857601)
  ∧ reads_of (new_events oversized_world out.2) = 0%nat
  ∧ gets_of (new_events oversized_world out.2) = 3%nat.
Proof.
  apply (download_media_file_oversized example_lib example_url 7 "poster" "high"
           false (init None) oversized_world 104857601); try done.
  intros k. by eexists _, _.
Qed.

End FailingInputs.

Section ScraperFacts.
Import IMDbScraper.

(** When every attempt loads a page on which blocking is detected (and the
    browser relaunch, if any, succeeds), [navigate_to_page] returns [False]
    and leaves the counters as they were: the return in the detection
    branch skips the increment the [except] branch makes. *)
Lemma navigate_loop_all_blocked (browser : nat → Attempt) (url : string)
    (retries : Z) (fuel : nat) (attempt : Z) (s : t) (tr : list Event) :
  (∀ k, goto (browser k) = Py.Ok tt
        ∧ evade_detection_sequence (browser k) = Py.Ok tt
        ∧ detected_on (browser k) = true
        ∧ initialize_browser (browser k) = Py.Ok tt) →
  browser_open s = true →
  (navigate_loop browser url retries fuel attempt s tr).1.1 = false
  ∧ scraping_stats (navigate_loop browser url retries fuel attempt s tr).1.2
    = scraping_stats s.
Proof.
  intros Hall. revert attempt s tr.
  induction fuel as [|fuel IH]; intros attempt s tr Hopen; [done|].
  cbn [navigate_loop]. unfold try_attempt.
  destruct (Hall (Z.to_nat attempt)) as (Hg & He & Hd & Hi).
  rewrite Hopen, Hg, He, Hd.
  destruct (proxy_manager s) as [pm|].
  - rewrite Hi. destruct (attempt =? retries - 1); [done|].
    destruct (IH (attempt + 1)
      (mk (Some (ProxyManager.rotate_proxy pm).2) (scraping_stats s) true)
      ((tr ++ [EvGoto url]) ++ [EvRotate; EvClose; EvInit]
         ++ [EvSleep (delay (browser (Z.to_nat attempt)))])) as [H1 H2]; [done|].
    rewrite <- !app_assoc in *. simpl in *. by rewrite H1, H2.
  - destruct (attempt =? retries - 1); [done|].
    by apply IH.
Qed.

(** When every attempt fails with an exception, the [except] branch of the
    last attempt counts one error. *)
Lemma navigate_loop_all_failing (browser : nat → Attempt) (url : string)
    (retries : Z) (fuel : nat) (attempt : Z) (s : t) (tr : list Event) :
  (∀ k, ∃ e, goto (browser k) = Py.Raise e) →
  browser_open s = true →
  fuel ≠ 0%nat →
  attempt + Z.of_nat fuel = retries →
  (navigate_loop browser url retries fuel attempt s tr).1.1 = false
  ∧ errors (scraping_stats (navigate_loop browser url retries fuel attempt s tr).1.2)
    = errors (scraping_stats s) + 1.
Proof.
  intros Hall. revert attempt s tr.
  induction fuel as [|fuel IH]; intros attempt s tr Hopen Hfuel Hsum; [done|].
  cbn [navigate_loop]. unfold try_attempt.
  destruct (Hall (Z.to_nat attempt)) as (e & Hg). rewrite Hopen, Hg.
  destruct (Z.eqb_spec attempt (retries - 1)) as [Hlast|Hmore]; [done|].
  apply IH; [done | lia | lia].
Qed.

(** Whatever the browser does, the call returns: with [True] after counting
    one page, or with [False] after counting at most one error. *)
Lemma navigate_loop_counts (browser : nat → Attempt) (url : string)
    (retries : Z) (fuel : nat) (attempt : Z) (s : t) (tr : list Event) :
  let out := navigate_loop browser url retries fuel attempt s tr in
  let before := scraping_stats s in
  let after := scraping_stats out.1.2 in
  if out.1.1
  then pages_visited after = pages_visited before + 1
       ∧ errors after = errors before
  else pages_visited after = pages_visited before
       ∧ (errors after = errors before ∨ errors after = errors before + 1).
Proof.
  revert attempt s tr. induction fuel as [|fuel IH]; intros attempt s tr.
  { simpl. auto. }
  cbn [navigate_loop]. unfold try_attempt.
  set (a := browser (Z.to_nat attempt)).
  destruct (browser_open s); [destruct (goto a)|];
    [destruct (evade_detection_sequence a);
       [destruct (detected_on a);
          [destruct (proxy_manager s);
             [destruct (initialize_browser a)|] |] |] | |];
    try destruct (attempt =? retries - 1);
    try (simpl; auto; fail);
    match goal with
    | |- context [navigate_loop browser url retries fuel (attempt + 1) ?s' ?tr'] =>
        specialize (IH (attempt + 1) s' tr'); simpl in IH; simpl; exact IH
    end.
Qed.

(** C5, at its failing input: three attempts, each of which loads the
    CAPTCHA page, and no proxy manager. The call returns [False], but the
    error counter stays at 0; when the three attempts fail with a timeout
    instead, it becomes 1. *)
Theorem navigate_blocked_counts_no_error :
  let blocked := navigate_to_page always_blocked example_title_url 3 (init None) in
  let failing := navigate_to_page always_failing example_title_url 3 (init None) in
  blocked.1.1 = false
  ∧ errors (scraping_stats blocked.1.2) = 0
  ∧ failing.1.1 = false
  ∧ errors (scraping_stats failing.1.2) = 1.
Proof.
  intros blocked failing. subst blocked failing. unfold navigate_to_page.
  destruct (navigate_loop_all_blocked always_blocked example_title_url 3
              (Z.to_nat 3) 0 (init None) []) as [H1 H2]; [|done|].
  { intros k. by vm_compute. }
  destruct (navigate_loop_all_failing always_failing example_title_url 3
              (Z.to_nat 3) 0 (init None) []) as [H3 H4]; [|done|done|done|].
  { intros k. by eexists. }
  rewrite H1, H2, H3, H4. done.
Qed.

End ScraperFacts.

(* ===================================================================== *)
(** * Further properties of proxy_manager.py *)
(* ===================================================================== *)

Section ProxyPoolMaintenance.
Import ProxyManager.

(** ** [remove_failed_proxies] *)

Lemma proxy_eqb_spec (a b : ProxyInfo) :
  proxy_eqb a b = true ↔
  host a = host b ∧ port a = port b ∧ username a = username b
  ∧ password a = password b ∧ protocol a = protocol b
  ∧ last_used a = last_used b ∧ success_count a = success_count b
  ∧ failure_count a = failure_count b
  ∧ Py.float_rank (avg_response_time a) = Py.float_rank (avg_response_time b)
  ∧ is_working a = is_working b ∧ country a = country b ∧ isp a = isp b.
Proof.
  unfold proxy_eqb.
  rewrite !andb_true_iff, !bool_decide_eq_true, float_eq_rank. tauto.
Qed.

Lemma proxy_eqb_refl (a : ProxyInfo) : proxy_eqb a a = true.
Proof. apply proxy_eqb_spec. repeat split; reflexivity. Qed.

Lemma proxy_eqb_sym (a b : ProxyInfo) : proxy_eqb a b = proxy_eqb b a.
Proof.
  apply eq_true_iff_eq. rewrite !proxy_eqb_spec.
  split; intros (?&?&?&?&?&?&?&?&?&?&?&?); repeat split;
    first [done | by symmetry].
Qed.

Lemma proxy_eqb_trans (a b c : ProxyInfo) :
  proxy_eqb a b = true → proxy_eqb b c = true → proxy_eqb a c = true.
Proof.
  rewrite !proxy_eqb_spec.
  intros (?&?&?&?&?&?&?&?&?&?&?&?) (?&?&?&?&?&?&?&?&?&?&?&?).
  repeat split; first [congruence | by etransitivity].
Qed.

(** Equal proxies are equal in the eyes of another one. *)
Lemma proxy_eqb_class (a b c : ProxyInfo) :
  proxy_eqb a b = true → proxy_eqb a c = proxy_eqb b c.
Proof.
  intros Hab. apply eq_true_iff_eq. split; intros H.
  - apply proxy_eqb_trans with a; [by rewrite proxy_eqb_sym | done].
  - by apply proxy_eqb_trans with b.
Qed.

Lemma proxy_eqb_high_failure_rate (a b : ProxyInfo) :
  proxy_eqb a b = true → high_failure_rate a = high_failure_rate b.
Proof.
  intros (?&?&?&?&?&?&Hs&Hf&?)%proxy_eqb_spec.
  unfold high_failure_rate. by rewrite Hs, Hf.
Qed.

Lemma list_remove_copies (x : ProxyInfo) (l : list ProxyInfo) :
  (0 < copies x l)%nat → high_failure_rate x = true →
  ∃ l', list_remove x l = Some l'
        ∧ (∀ c, copies c l = (copies c l' + (if proxy_eqb x c then 1 else 0))%nat)
        ∧ List.filter keeps l' = List.filter keeps l
        ∧ length l = S (length l').
Proof.
  intros Hpos Hx. unfold copies in Hpos.
  induction l as [|y l IH]; [simpl in Hpos; lia|]. simpl in *.
  destruct (proxy_eqb y x) eqn:Hyx.
  - exists l. split; [done|]. split; [|split; [|done]].
    + intros c. unfold copies. simpl.
      rewrite (proxy_eqb_class y x c Hyx).
      destruct (proxy_eqb x c); simpl; lia.
    + unfold keeps at 2.
      rewrite (proxy_eqb_high_failure_rate y x Hyx), Hx. done.
  - destruct (IH Hpos) as (l' & -> & Hc & Hk & Hlen).
    exists (y :: l'). split; [done|]. split; [|split].
    + intros c. unfold copies in *. simpl.
      destruct (proxy_eqb y c); simpl; rewrite Hc; lia.
    + simpl. by rewrite Hk.
    + simpl. by rewrite Hlen.
Qed.

Lemma remove_each_keeps (fs l : list ProxyInfo) :
  (∀ c, copies c fs ≤ copies c l)%nat →
  Forall (λ p, high_failure_rate p = true) fs →
  ∃ l', remove_each fs l = (Py.Ok tt, l')
        ∧ List.filter keeps l' = List.filter keeps l
        ∧ length l = (length fs + length l')%nat.
Proof.
  revert l. induction fs as [|f fs IH]; intros l Hc Hf.
  { exists l. done. }
  inversion Hf as [|? ? Hfx Hfs]; subst.
  destruct (list_remove_copies f l) as (l1 & Hrm & Hc1 & Hk1 & Hlen1); [|done|].
  { specialize (Hc f). unfold copies at 1 in Hc. simpl in Hc.
    rewrite proxy_eqb_refl in Hc. simpl in Hc. lia. }
  destruct (IH l1) as (l' & Hr & Hk & Hlen); [|done|].
  { intros c. specialize (Hc c). rewrite (Hc1 c) in Hc.
    unfold copies at 1 in Hc. simpl in Hc. unfold copies at 1.
    destruct (proxy_eqb f c); simpl in Hc; lia. }
  exists l'. simpl. rewrite Hrm. split; [done|]. split; [congruence|].
  simpl. lia.
Qed.

Lemma filter_split_length {A : Type} (f : A → bool) (l : list A) :
  (length (List.filter f l) + length (List.filter (λ x, negb (f x)) l))%nat
  = length l.
Proof. induction l as [|x l IH]; simpl; [done|]. destruct (f x); simpl; lia. Qed.

Lemma filter_full {A : Type} (f : A → bool) (l : list A) :
  length (List.filter f l) = length l → List.filter f l = l.
Proof.
  induction l as [|x l IH]; simpl; [done|]. destruct (f x); simpl.
  - intros [= H]. by rewrite IH.
  - intros H. pose proof (filter_length_le f l). lia.
Qed.

(** X1. [remove_failed_proxies] never raises: it leaves exactly the
    proxies that fail its test, in their order, returns the number of
    proxies it removed, and does not touch the rotation index. *)
Theorem remove_failed_proxies_filter (pm : t) :
  remove_failed_proxies pm
  = (Py.Ok (Z.of_nat (length (proxies pm))
            - Z.of_nat (length (proxies (remove_failed_proxies pm).2))),
     mk (List.filter (λ p, negb (high_failure_rate p)) (proxies pm))
        (current_proxy_index pm) (rotation_enabled pm)).
Proof.
  unfold remove_failed_proxies.
  destruct (remove_each_keeps (List.filter high_failure_rate (proxies pm))
              (proxies pm)) as (l' & Hr & Hk & Hlen).
  { intros c. unfold copies.
    induction (proxies pm) as [|y l IH]; simpl; [done|].
    destruct (high_failure_rate y); simpl; destruct (proxy_eqb y c); simpl; lia. }
  { apply Forall_forall. intros p Hp.
    apply list_elem_of_In, filter_In in Hp. tauto. }
  rewrite Hr. simpl.
  assert (Hfull : List.filter keeps l' = l').
  { apply filter_full. rewrite Hk.
    pose proof (filter_split_length high_failure_rate (proxies pm)).
    unfold keeps. lia. }
  assert (El : l' = List.filter (λ p, negb (high_failure_rate p)) (proxies pm)).
  { rewrite <- Hfull, Hk. done. }
  rewrite <- El. f_equal. f_equal. lia.
Qed.

End ProxyPoolMaintenance.

Section ProxyPoolFlags.
Import ProxyManager.

(** ** What the pool operations leave alone *)

Lemma set_is_working_id (p : ProxyInfo) : p = set_is_working (is_working p) p.
Proof. by destruct p. Qed.

Lemma same_but_flags_refl (ps : list ProxyInfo) : same_but_flags ps ps.
Proof. apply Forall2_same_length_lookup_2; [done|]. intros i p q Hp Hq.
  rewrite Hp in Hq. injection Hq as <-. apply set_is_working_id. Qed.

Lemma same_but_flags_trans (ps1 ps2 ps3 : list ProxyInfo) :
  same_but_flags ps1 ps2 → same_but_flags ps2 ps3 → same_but_flags ps1 ps3.
Proof.
  unfold same_but_flags. intros H12. revert ps3.
  induction H12 as [|p1 p2 l1 l2 Hp _ IH]; intros ps3 H23.
  - inversion H23. constructor.
  - inversion H23 as [|? p3 ? l3 Hq Hl]; subst. constructor; [|by apply IH].
    destruct p1, p2, p3. unfold set_is_working in *. simpl in *. congruence.
Qed.

Lemma same_but_flags_map (ps : list ProxyInfo) (b : bool) :
  same_but_flags ps (map (set_is_working b) ps).
Proof.
  unfold same_but_flags. induction ps as [|p ps IH]; simpl; constructor; [|done].
  by destruct p.
Qed.

Lemma same_but_flags_length (ps ps' : list ProxyInfo) :
  same_but_flags ps ps' → length ps' = length ps.
Proof. intros H. symmetry. by eapply Forall2_length. Qed.

Lemma same_but_flags_lookup (ps ps' : list ProxyInfo) (i : nat) (p : ProxyInfo) :
  same_but_flags ps ps' → ps !! i = Some p →
  ∃ b, ps' !! i = Some (set_is_working b p).
Proof.
  intros H Hp. destruct (Forall2_lookup_l _ _ _ _ _ H Hp) as (p' & Hp' & E).
  exists (is_working p'). by rewrite <- E.
Qed.

Lemma same_but_flags_totals (ps ps' : list ProxyInfo) :
  same_but_flags ps ps' →
  total_success ps' = total_success ps ∧ total_failures ps' = total_failures ps.
Proof.
  unfold total_success, total_failures.
  induction 1 as [|p p' l l' Hp _ [IH1 IH2]]; simpl; [done|].
  rewrite IH1, IH2, Hp. by destruct p.
Qed.

Lemma get_current_proxy_flags (pm : t) :
  same_but_flags (proxies pm) (proxies (get_current_proxy pm).2).
Proof.
  destruct (proxies pm) as [|p0 ps0] eqn:E.
  { unfold get_current_proxy. rewrite E. simpl. rewrite E. constructor. }
  destruct (get_current_proxy_cons pm) as (ps & w & idx & -> & _ & _ & _ & _ & H);
    [by rewrite E|].
  simpl. rewrite <- E. destruct H as [[_ ->] | [_ ->]].
  - apply same_but_flags_refl.
  - apply same_but_flags_map.
Qed.

Lemma get_current_proxy_alive (pm : t) :
  proxies pm ≠ [] →
  Exists (λ p, is_working p = true) (proxies (get_current_proxy pm).2).
Proof.
  intros Hne.
  destruct (get_current_proxy_cons pm Hne)
    as (ps & working & idx & -> & Hw & _ & Hlt & _ & _).
  simpl. destruct (lookup_lt_is_Some_2 working idx Hlt) as [r Hr].
  assert (Hin : r ∈ working_from 0 ps).
  { rewrite Hw in Hr. by eapply list_elem_of_lookup_2. }
  apply working_from_spec in Hin as (p & _ & Hp & Hwp).
  apply Exists_exists. exists p. split; [|done].
  by eapply list_elem_of_lookup_2.
Qed.

Lemma get_current_proxy_ref (pm : t) :
  proxies pm ≠ [] →
  ∃ r, (get_current_proxy pm).1 = Some r
       ∧ (r < length (proxies pm))%nat.
Proof.
  intros Hne.
  destruct (get_current_proxy_cons pm Hne)
    as (ps & working & idx & E & Hw & _ & Hlt & _ & Hps).
  rewrite E. simpl. destruct (lookup_lt_is_Some_2 working idx Hlt) as [r Hr].
  exists r. split; [done|].
  assert (Hin : r ∈ working_from 0 ps).
  { rewrite Hw in Hr. by eapply list_elem_of_lookup_2. }
  apply working_from_spec in Hin as (p & _ & Hp & _).
  rewrite Nat.sub_0_r in Hp. apply lookup_lt_Some in Hp.
  destruct Hps as [[_ ->] | [_ ->]]; [done|]. by rewrite length_map in Hp.
Qed.

Lemma get_current_proxy_empty (pm : t) :
  proxies pm = [] → get_current_proxy pm = (None, pm).
Proof. intros E. unfold get_current_proxy. by rewrite E. Qed.

(** [rotate_proxy] ends in a call of [get_current_proxy] on the same
    proxies. *)
Lemma rotate_proxy_as_current (pm : t) :
  ∃ idx, rotate_proxy pm
         = get_current_proxy (mk (proxies pm) idx (rotation_enabled pm)).
Proof.
  unfold rotate_proxy.
  destruct (negb (rotation_enabled pm) || Nat.leb (length (proxies pm)) 1)%bool.
  { exists (current_proxy_index pm). by destruct pm. }
  destruct (Nat.leb _ 1).
  { exists (current_proxy_index pm). by destruct pm. }
  by eexists.
Qed.

Lemma rotate_proxy_flags (pm : t) :
  same_but_flags (proxies pm) (proxies (rotate_proxy pm).2).
Proof.
  destruct (rotate_proxy_as_current pm) as [idx ->].
  apply (get_current_proxy_flags (mk (proxies pm) idx (rotation_enabled pm))).
Qed.

Lemma rotate_proxy_alive (pm : t) :
  proxies pm ≠ [] →
  Exists (λ p, is_working p = true) (proxies (rotate_proxy pm).2).
Proof.
  intros Hne. destruct (rotate_proxy_as_current pm) as [idx ->].
  by apply (get_current_proxy_alive (mk (proxies pm) idx (rotation_enabled pm))).
Qed.

(** [mark_proxy_failed] is the failure recorded on [r], then calls that
    touch flags only; on a non-empty pool they leave a working proxy. *)
Lemma mark_proxy_failed_flags (r : nat) (pm : t) :
  same_but_flags (alter record_failure r (proxies pm))
                 (proxies (mark_proxy_failed r pm))
  ∧ (proxies pm ≠ [] →
     Exists (λ p, is_working p = true) (proxies (mark_proxy_failed r pm))).
Proof.
  unfold mark_proxy_failed.
  set (pm1 := mk (alter record_failure r (proxies pm)) _ _).
  assert (Hne1 : proxies pm ≠ [] → proxies pm1 ≠ []).
  { simpl. intros Hne E. apply Hne. apply length_zero_iff_nil.
    apply (f_equal length) in E. by rewrite length_alter in E. }
  pose proof (get_current_proxy_flags pm1) as Hf.
  pose proof (get_current_proxy_alive pm1) as Ha.
  destruct (get_current_proxy pm1) as [cur pm2] eqn:E. simpl in Hf, Ha.
  assert (Hne2 : proxies pm ≠ [] → proxies pm2 ≠ []).
  { intros Hne E2. apply (Hne1 Hne). apply length_zero_iff_nil.
    pose proof (same_but_flags_length _ _ Hf) as Hl.
    rewrite E2 in Hl. simpl in *. lia. }
  assert (Hrot : same_but_flags (alter record_failure r (proxies pm))
                   (proxies (rotate_proxy pm2).2)).
  { eapply same_but_flags_trans; [exact Hf | apply rotate_proxy_flags]. }
  destruct cur as [c|]; [|split; [done | auto]].
  destruct (proxies pm2 !! r) as [p|]; [|split; [done | auto]].
  destruct (proxies pm2 !! c) as [pc|]; [|split; [done | auto]].
  destruct (proxy_eqb p pc); [|split; [done | auto]].
  split; [done|]. intros Hne. apply rotate_proxy_alive. auto.
Qed.

(** X2. Marking a pooled proxy as failed adds one to its failure count
    and changes no other counter and no other proxy's identity, and it
    never leaves the pool without a working proxy: when the last working
    proxy fails, every proxy is enabled again at once. *)
Theorem mark_proxy_failed_keeps_pool_alive (pm : t) (r : nat) (p : ProxyInfo) :
  proxies pm !! r = Some p →
  (∃ b, proxies (mark_proxy_failed r pm) !! r
        = Some (set_is_working b (record_failure p)))
  ∧ (∀ i q, i ≠ r → proxies pm !! i = Some q →
       ∃ b, proxies (mark_proxy_failed r pm) !! i = Some (set_is_working b q))
  ∧ length (proxies (mark_proxy_failed r pm)) = length (proxies pm)
  ∧ Exists (λ q, is_working q = true) (proxies (mark_proxy_failed r pm)).
Proof.
  intros Hp. destruct (mark_proxy_failed_flags r pm) as [Hf Ha].
  split; [|split; [|split]].
  - eapply same_but_flags_lookup; [exact Hf|].
    by rewrite list_lookup_alter_eq, Hp.
  - intros i q Hi Hq. eapply same_but_flags_lookup; [exact Hf|].
    by rewrite list_lookup_alter_ne.
  - rewrite (same_but_flags_length _ _ Hf). apply length_alter.
  - apply Ha. intros E. by rewrite E in Hp.
Qed.

Lemma mark_proxy_failed_keeps_pool_alive_witness :
  proxies pool3 !! 1%nat = Some (fresh "10.0.0.2")
  ∧ Exists (λ q, is_working q = true) (proxies (mark_proxy_failed 1 pool3)).
Proof.
  split; [reflexivity|].
  apply (mark_proxy_failed_keeps_pool_alive pool3 1 (fresh "10.0.0.2")).
  reflexivity.
Defined.

(** ** The rolling average of [mark_proxy_success] *)

Lemma mark_proxy_success_counts (r : nat) (rt : option Py.float) (now : DateTime)
    (pm : t) (p : ProxyInfo) :
  proxies pm !! r = Some p →
  (∃ p', proxies (mark_proxy_success r rt now pm).2 !! r = Some p'
         ∧ p' = (record_success now rt p).2
         ∧ success_count p' = success_count p + 1
         ∧ failure_count p' = failure_count p
         ∧ is_working p' = true ∧ last_used p' = Some now)
  ∧ (∀ i, i ≠ r → proxies (mark_proxy_success r rt now pm).2 !! i = proxies pm !! i).
Proof.
  intros Hp. unfold mark_proxy_success. rewrite Hp.
  assert (Hrec : success_count (record_success now rt p).2 = success_count p + 1
                 ∧ failure_count (record_success now rt p).2 = failure_count p
                 ∧ is_working (record_success now rt p).2 = true
                 ∧ last_used (record_success now rt p).2 = Some now).
  { unfold record_success. destruct rt as [rt|]; [|done].
    destruct (Py.float_truthy rt); [|done].
    by destruct (rolling_average _ _ rt). }
  destruct (record_success now rt p) as [res p']. simpl in Hrec |- *. split.
  - exists p'. split; [|done].
    apply list_lookup_insert_eq. by apply lookup_lt_Some in Hp.
  - intros i Hi. by rewrite list_lookup_insert_ne.
Qed.

(** X3. Each call of [mark_proxy_success] counts one success on the
    proxy, marks it working and records the time of the call, whether or
    not the computation of the average raises, and touches no other
    proxy; the average it stores is the binary64 value of
    [(avg * (n - 1) + response_time) / n], kept as it was when the
    response time is zero or the computation raises. *)
Theorem mark_proxy_success_running_mean (pm : t) (r : nat) (p : ProxyInfo)
    (now : DateTime) (ts : list Py.float) :
  proxies pm !! r = Some p →
  (∃ p', proxies (mark_successes r ts now pm) !! r = Some p'
         ∧ success_count p' = success_count p + Z.of_nat (length ts)
         ∧ failure_count p' = failure_count p
         ∧ (ts ≠ [] → is_working p' = true ∧ last_used p' = Some now))
  ∧ (∀ i, i ≠ r → proxies (mark_successes r ts now pm) !! i = proxies pm !! i)
  ∧ (∀ rt, ∃ p', proxies (mark_proxy_success r (Some rt) now pm).2 !! r = Some p'
                 ∧ avg_response_time p'
                   = if Py.float_truthy rt
                     then match rolling_average (avg_response_time p)
                                  (success_count p + 1) rt with
                          | Py.Ok avg => avg
                          | Py.Raise _ => avg_response_time p
                          end
                     else avg_response_time p).
Proof.
  intros Hp. split; [|split].
  - revert pm p Hp. induction ts as [|rt ts IH]; intros pm p Hp.
    { exists p. simpl. split; [done|]. split; [lia|]. done. }
    destruct (mark_proxy_success_counts r (Some rt) now pm p Hp)
      as [(p1 & Hp1 & _ & Hc1 & Hf1 & Hw1 & Hl1) _].
    destruct (IH _ p1 Hp1) as (p' & Hp' & Hc & Hf & Hne).
    exists p'. cbn [mark_successes]. split; [done|].
    split; [rewrite Hc, Hc1; cbn [length]; lia|]. split; [congruence|].
    intros _. destruct ts as [|rt' ts'].
    + simpl in Hp'. rewrite Hp1 in Hp'. by injection Hp' as <-.
    + by apply Hne.
  - revert pm p Hp. induction ts as [|rt ts IH]; intros pm p Hp i Hi; [done|].
    destruct (mark_proxy_success_counts r (Some rt) now pm p Hp)
      as [(p1 & Hp1 & _) Hother].
    cbn [mark_successes]. rewrite (IH _ p1 Hp1 i Hi). by apply Hother.
  - intros rt.
    destruct (mark_proxy_success_counts r (Some rt) now pm p Hp)
      as [(p1 & Hp1 & -> & _) _].
    eexists. split; [exact Hp1|].
    unfold record_success. destruct (Py.float_truthy rt); [|done].
    by destruct (rolling_average _ _ rt).
Qed.

(** X3 at the response times 0.1 and 0.2: the average stored is
    0.15000000000000002, the float above the mean 0.15. *)
Lemma mark_proxy_success_running_mean_witness :
  proxies pool3 !! 0%nat = Some (fresh "10.0.0.1")
  ∧ ∃ p', proxies (mark_successes 0 [Py.lit 1 10; Py.lit 2 10]
                     (mkDateTime 2024 1 1 12 0 0) pool3) !! 0%nat = Some p'
          ∧ success_count p' = 2
          ∧ avg_response_time p' = PrimFloat.next_up (Py.lit 15 100).
Proof.
  assert (H1 : proxies pool3 !! 0%nat = Some (fresh "10.0.0.1")) by reflexivity.
  split; [exact H1|].
  destruct (mark_proxy_success_running_mean pool3 0 (fresh "10.0.0.1")
              (mkDateTime 2024 1 1 12 0 0) [Py.lit 1 10; Py.lit 2 10] H1)
    as [(p' & Hp' & Hc & _) _].
  exists p'. split; [exact Hp'|]. split; [exact Hc|].
  assert (Hv : proxies (mark_successes 0 [Py.lit 1 10; Py.lit 2 10]
                          (mkDateTime 2024 1 1 12 0 0) pool3) !! 0%nat
               = Some (mkProxyInfo "10.0.0.1" 8080 None None "http"
                         (Some (mkDateTime 2024 1 1 12 0 0)) 2 0
                         (PrimFloat.next_up (Py.lit 15 100)) true None None))
    by (vm_compute; reflexivity).
  rewrite Hp' in Hv. by injection Hv as ->.
Defined.

End ProxyPoolFlags.

Section ProxyPoolHealth.
Import ProxyManager.

(** ** [reset_proxy_stats] and [get_best_proxy] *)

Lemma working_pairs_from_all (ps : list ProxyInfo) (i : nat) :
  Forall (λ p, is_working p = true) ps →
  working_pairs_from i ps = zip (seq i (length ps)) ps.
Proof.
  intros H. revert i. induction H as [|p ps Hp _ IH]; intros i; simpl; [done|].
  by rewrite Hp, IH.
Qed.

Lemma max_by_ties {A : Type} (key : A → Py.result Py.float) (best : A)
    (k : Py.float) (rest : list A) :
  Forall (λ x, ∃ kx, key x = Py.Ok kx ∧ PrimFloat.ltb k kx = false) rest →
  max_by key best k rest = Py.Ok best.
Proof.
  induction 1 as [|x rest (kx & Hx & Hlt) _ IH]; simpl; [done|].
  rewrite Hx, Hlt. exact IH.
Qed.

(** X4. After [reset_proxy_stats] every proxy scores the same, so
    [get_best_proxy] returns the first proxy of the pool (none when the
    pool is empty), whatever was recorded before. *)
Theorem get_best_proxy_after_reset (pm : t) :
  get_best_proxy (reset_proxy_stats pm)
  = Py.Ok ((λ p, (0%nat, reset_stats p)) <$> head (proxies pm)).
Proof.
  unfold get_best_proxy, get_working_proxies, reset_proxy_stats. simpl.
  rewrite working_pairs_from_all.
  2: { apply Forall_forall. intros p (q & -> & _)%list_elem_of_fmap. done. }
  destruct (proxies pm) as [|p ps]; [done|]. cbn [length seq map zip zip_with snd].
  change (calculate_score (reset_stats p)) with (Py.Ok (Py.lit 1 2)).
  cbv iota beta. rewrite max_by_ties; [done|].
  apply Forall_forall. intros [i q] Hin.
  apply elem_of_zip_r in Hin.
  apply list_elem_of_fmap in Hin as (q0 & -> & _).
  exists (Py.lit 1 2). split; [done|]. by vm_compute.
Qed.

(** ** [health_check] *)

Lemma working_pairs_refs (ps : list ProxyInfo) (i : nat) :
  map fst (working_pairs_from i ps) = working_from i ps.
Proof.
  revert i. induction ps as [|p ps IH]; intros i; simpl; [done|].
  destruct (is_working p); simpl; by rewrite IH.
Qed.

Lemma get_working_proxies_length (pm : t) :
  length (get_working_proxies pm) = length (working_refs (proxies pm)).
Proof.
  unfold get_working_proxies, working_refs.
  by rewrite <- working_pairs_refs, length_map.
Qed.

Lemma get_working_proxies_nil (pm : t) :
  get_working_proxies pm = [] ↔ Forall (λ p, is_working p = false) (proxies pm).
Proof.
  rewrite <- (working_from_none _ 0).
  pose proof (get_working_proxies_length pm) as H. unfold working_refs in H.
  split; intros E; apply length_zero_iff_nil.
  - by rewrite <- H, E.
  - by rewrite H, E.
Qed.

Lemma get_working_proxies_all (pm : t) :
  Forall (λ p, is_working p = true) (proxies pm) →
  length (get_working_proxies pm) = length (proxies pm).
Proof.
  intros H. rewrite get_working_proxies_length. unfold working_refs.
  by rewrite working_from_all, length_seq.
Qed.

(** X5. [health_check] reports "critical" exactly for a non-empty pool
    without a working proxy, and the check itself then enables every
    proxy again: the state it leaves has all proxies working, and the
    next check reports "healthy" with no issue. *)
Theorem health_check_critical_heals (pm : t) :
  (status (health_check pm).1 = "critical"
   ↔ proxies pm ≠ [] ∧ Forall (λ p, is_working p = false) (proxies pm))
  ∧ (status (health_check pm).1 = "critical" →
     working_proxies (health_check pm).1 = 0
     ∧ is_Some (current_proxy (health_check pm).1)
     ∧ proxies (health_check pm).2 = map (set_is_working true) (proxies pm)
     ∧ status (health_check (health_check pm).2).1 = "healthy"
     ∧ issues (health_check (health_check pm).2).1 = []
     ∧ working_proxies (health_check (health_check pm).2).1
       = total_proxies (health_check pm).1).
Proof.
  assert (Hiff : status (health_check pm).1 = "critical"
                 ↔ proxies pm ≠ []
                   ∧ Forall (λ p, is_working p = false) (proxies pm)).
  { rewrite <- get_working_proxies_nil. unfold health_check.
    destruct (proxies pm) as [|p0 ps0]; simpl.
    { split; [done | by intros [? _]]. }
    destruct (get_working_proxies pm) as [|x xs].
    - destruct (get_current_proxy pm). simpl. done.
    - destruct (Py.Qltb _ _); destruct (get_current_proxy pm); simpl;
        (split; [done | by intros [_ ?]]). }
  split; [exact Hiff|].
  intros [Hne Hall]%Hiff.
  pose proof (proj2 (get_working_proxies_nil pm) Hall) as Hnil.
  destruct (get_current_proxy_cons pm Hne)
    as (ps & working & idx & Hcur & Hw & _ & Hlt & _ & [[Hw0 _] | [_ Hps]]).
  { exfalso. apply Hw0. by apply working_from_none. }
  destruct (lookup_lt_is_Some_2 working idx Hlt) as [r Hr].
  assert (Hrp : is_Some (ps !! r)).
  { assert (Hin : r ∈ working_from 0 ps).
    { rewrite Hw in Hr. by eapply list_elem_of_lookup_2. }
    apply working_from_spec in Hin as (p & _ & Hp & _).
    rewrite Nat.sub_0_r in Hp. by exists p. }
  assert (Hfirst : health_check pm
     = (mkHealthStatus "critical" (Z.of_nat (length (proxies pm))) 0
          (rotation_enabled pm)
          ((λ p, host p +:+ ":" +:+ Py.str_int (port p)) <$> ps !! r)
          ["No working proxies available"],
        mk ps idx (rotation_enabled pm))).
  { unfold health_check. rewrite Hnil, Hcur, Hr.
    destruct (proxies pm); [done|]. done. }
  rewrite Hfirst. simpl.
  split; [done|]. split; [by apply fmap_is_Some|]. split; [done|].
  assert (Hallw : Forall (λ p, is_working p = true) ps).
  { rewrite Hps. apply map_set_working_all. }
  assert (Hlen : length ps = length (proxies pm)) by (by rewrite Hps, length_map).
  assert (Hne' : ps ≠ []).
  { intros E. rewrite E in Hlen. simpl in Hlen.
    symmetry in Hlen. by apply length_zero_iff_nil in Hlen. }
  pose proof (get_working_proxies_all (mk ps idx (rotation_enabled pm)) Hallw)
    as Hwl. simpl in Hwl.
  unfold health_check. simpl proxies. rewrite Hwl.
  destruct ps as [|q0 qs] eqn:Eps; [done|]. rewrite <- Eps in *.
  destruct (get_working_proxies (mk ps idx (rotation_enabled pm)))
    as [|x xs] eqn:Egw.
  { rewrite Eps in Hwl. simpl in Hwl. lia. }
  assert (Hq : Py.Qltb (inject_Z (Z.of_nat (length ps)))
                 (inject_Z (Z.of_nat (length ps)) * (1 # 2)) = false).
  { unfold Py.Qltb. apply negb_false_iff, Qle_bool_iff.
    unfold Qle. simpl. lia. }
  rewrite Hq.
  destruct (get_current_proxy (mk ps idx (rotation_enabled pm))) as [c2 pm2].
  simpl. rewrite Hlen. done.
Qed.

Lemma health_check_critical_heals_witness :
  status (health_check pool_all_failed).1 = "critical"
  ∧ status (health_check (health_check pool_all_failed).2).1 = "healthy".
Proof.
  split; [reflexivity|].
  apply (proj2 (health_check_critical_heals pool_all_failed)). reflexivity.
Defined.

End ProxyPoolHealth.
